(** * Presence-session reconstruction, nested-session filter and window
      aggregation of [main.go]

    The development embeds the three pure stages of the program
    ([processActivities], [FilterSessions], [CalculateTotalTimeForDate])
    together with the small part of Go's [time] package they rely on, and
    proves the properties stated about them. *)

From stdpp Require Import gmap strings list fin_maps sorting.
From Stdlib Require Import ZArith Lia Ascii.

Local Open Scope Z_scope.

(** ** The part of Go's [time] package used by the program *)

Module time.

(** [time.Duration] is an [int64] count of nanoseconds. *)
Abbreviation Duration := Z.
Definition Nanosecond : Duration := 1.
Definition Second : Duration := 1000000000.
Definition Minute : Duration := 60 * Second.
Definition Hour : Duration := 60 * Minute.

Definition minDuration : Duration := - 2 ^ 63.
Definition maxDuration : Duration := 2 ^ 63 - 1.

(** Two's complement wrap-around of [int64] arithmetic. *)
Definition wrap64 (z : Z) : Z := (z + 2 ^ 63) mod 2 ^ 64 - 2 ^ 63.

(** A [time.Time] is an instant together with the location it is presented
    in.  The instant is kept as nanoseconds since the Unix epoch, the
    location as its offset east of UTC in seconds (every location the
    program meets is UTC or a fixed offset read from a timestamp). *)
Record Time := mkTime { unixNano : Z; zoneOffset : Z }.

Definition Before (t u : Time) : bool := unixNano t <? unixNano u.
Definition After (t u : Time) : bool := unixNano u <? unixNano t.

(** [t.Add(d)] keeps the location of [t]. *)
Definition Add (t : Time) (d : Duration) : Time :=
  mkTime (unixNano t + d) (zoneOffset t).

(** [t.Sub(u)] saturates at the bounds of [Duration]. *)
Definition Sub (t u : Time) : Duration :=
  let d := unixNano t - unixNano u in
  if d <? minDuration then minDuration
  else if maxDuration <? d then maxDuration
  else d.

(** Seconds from January 1 of year 1 (the zero time) to the Unix epoch. *)
Definition unixToInternal : Z := 62135596800.

(** [t.Truncate(d)] rounds the time elapsed since the zero time down to a
    multiple of [d]; it works on the instant, not on the presentation. *)
Definition Truncate (t : Time) (d : Duration) : Time :=
  if d <=? 0 then t
  else Add t (- ((unixNano t + unixToInternal * Second) mod d)).

(** [t.UTC()] presents the same instant in UTC. *)
Definition UTC (t : Time) : Time := mkTime (unixNano t) 0.

(** *** Calendar *)

(** Days from the civil date [y-m-d] to 1970-01-01 (proleptic Gregorian). *)
Definition daysFromCivil (y m d : Z) : Z :=
  let y' := if m <=? 2 then y - 1 else y in
  let era := y' / 400 in
  let yoe := y' - era * 400 in
  let mp := if 2 <? m then m - 3 else m + 9 in
  let doy := (153 * mp + 2) / 5 + d - 1 in
  let doe := yoe * 365 + yoe / 4 - yoe / 100 + doy in
  era * 146097 + doe - 719468.

(** The civil year that contains day number [z] (days since 1970-01-01). *)
Definition yearOfDays (z : Z) : Z :=
  let z' := z + 719468 in
  let era := z' / 146097 in
  let doe := z' - era * 146097 in
  let yoe := (doe - doe / 1460 + doe / 36524 - doe / 146096) / 365 in
  let doy := doe - (365 * yoe + yoe / 4 - yoe / 100) in
  let mp := (5 * doy + 2) / 153 in
  let m := if mp <? 10 then mp + 3 else mp - 9 in
  if m <=? 2 then yoe + era * 400 + 1 else yoe + era * 400.

(** The day number of [t] as seen in the location of [t]. *)
Definition localDays (t : Time) : Z :=
  (unixNano t + zoneOffset t * Second) / (24 * Hour).

(** [t.Year()] and [t.YearDay()] read the calendar in the location of [t];
    [YearDay] counts from 1. *)
Definition Year (t : Time) : Z := yearOfDays (localDays t).
Definition YearDay (t : Time) : Z :=
  localDays t - daysFromCivil (Year t) 1 1 + 1.

Definition isLeap (y : Z) : bool :=
  (y mod 4 =? 0) && (negb (y mod 100 =? 0) || (y mod 400 =? 0)).

Definition daysIn (m y : Z) : Z :=
  if m =? 2 then (if isLeap y then 29 else 28)
  else if (m =? 4) || (m =? 6) || (m =? 9) || (m =? 11) then 30
  else 31.

(** *** Reading RFC 3339 timestamps

    The strict grammar of [time.RFC3339]: [YYYY-MM-DDTHH:MM:SS], an optional
    fraction [.d+] (digits past the ninth are dropped) and a zone, [Z] or
    [±HH:MM]; [None] stands for the error result.  [time.Parse] tolerates a
    few more spellings (a one-digit hour, a comma before the fraction), none
    of which occurs in the inputs used below; the general statements take the
    reader as a parameter and hold for every reader. *)

Definition digit (c : ascii) : option Z :=
  let n := Z.of_N (N_of_ascii c) in
  if (48 <=? n) && (n <=? 57) then Some (n - 48) else None.

(** [parseUint s n lo hi] reads exactly [n] digits and checks the range. *)
Fixpoint readDigits (n : nat) (acc : Z) (s : string) : option (Z * string) :=
  match n with
  | O => Some (acc, s)
  | S n' =>
      match s with
      | String c s' => d ← digit c; readDigits n' (10 * acc + d) s'
      | EmptyString => None
      end
  end.

Definition parseUint (n : nat) (lo hi : Z) (s : string) : option (Z * string) :=
  '(v, rest) ← readDigits n 0 s;
  if (lo <=? v) && (v <=? hi) then Some (v, rest) else None.

Definition expect (c : ascii) (s : string) : option string :=
  match s with
  | String c' s' => if Ascii.eqb c c' then Some s' else None
  | EmptyString => None
  end.

(** The digits of a fraction: the value of the first nine, scaled to
    nanoseconds, and what follows the last digit. *)
Fixpoint readFraction (scale : Z) (acc : Z) (s : string) : Z * string :=
  match s with
  | String c s' =>
      match digit c with
      | Some d => readFraction (scale / 10) (acc + d * (scale / 10)) s'
      | None => (acc, s)
      end
  | EmptyString => (acc, s)
  end.

Definition parseFraction (s : string) : Z * string :=
  match s with
  | String "."%char (String c _ as s') =>
      match digit c with
      | Some _ => readFraction Second 0 s'
      | None => (0, s)
      end
  | _ => (0, s)
  end.

Definition parseZone (s : string) : option Z :=
  match s with
  | String "Z"%char EmptyString => Some 0
  | String sign s1 =>
      '(hr, s2) ← parseUint 2 0 23 s1;
      s3 ← expect ":"%char s2;
      '(mm, s4) ← parseUint 2 0 59 s3;
      match s4 with
      | EmptyString =>
          if Ascii.eqb sign "+"%char then Some ((hr * 60 + mm) * 60)
          else if Ascii.eqb sign "-"%char then Some (- ((hr * 60 + mm) * 60))
          else None
      | _ => None
      end
  | EmptyString => None
  end.

Definition ParseRFC3339 (s : string) : option Time :=
  '(year, s) ← parseUint 4 0 9999 s;
  s ← expect "-"%char s;
  '(month, s) ← parseUint 2 1 12 s;
  s ← expect "-"%char s;
  '(day, s) ← parseUint 2 1 (daysIn month year) s;
  s ← expect "T"%char s;
  '(hour, s) ← parseUint 2 0 23 s;
  s ← expect ":"%char s;
  '(min, s) ← parseUint 2 0 59 s;
  s ← expect ":"%char s;
  '(sec, s) ← parseUint 2 0 59 s;
  let '(nsec, s) := parseFraction s in
  offset ← parseZone s;
  let secs := daysFromCivil year month day * 86400
              + hour * 3600 + min * 60 + sec - offset in
  Some (mkTime (secs * Second + nsec) offset).

(** [time.Date(y, m, d, 0, 0, 0, 0, time.UTC)]. *)
Definition DateUTC (y m d : Z) : Time :=
  mkTime (daysFromCivil y m d * (24 * Hour)) 0.

End time.

Import time.

(** ** Data model *)

(** A row of the voice-channel table; [Active] is an [int16] state code,
    [2] for presence and [0] for its end. *)
Record VoiceChannelUser := mkVoiceChannelUser {
  ID : Z;
  UserID : string;
  ClanID : Z;
  ChannelID : Z;
  DisplayName : string;
  CreateTime : string;
  UpdateTime : string;
  Active : Z
}.

Record Session := mkSession {
  Name : string;
  GoogleID : string;
  StartTime : Time;
  EndTime : Time
}.

(** The record of [main.go]; the other variant of the program has an [Email]
    field in [Session] and [SessionTime], always empty, and no [Date]. *)
Module SessionTime.
Record t := mk {
  Name : string;
  GoogleID : string;
  TotalTime : Duration;
  Date : Time
}.
End SessionTime.

#[global] Instance Time_eq_dec : EqDecision Time.
Proof. solve_decision. Defined.

#[global] Instance Session_eq_dec : EqDecision Session.
Proof. solve_decision. Defined.

Definition minTime (a b : Time) : Time := if Before a b then a else b.
Definition maxTime (a b : Time) : Time := if After a b then a else b.

(** ** Session reconstruction: [processActivities] *)

(** The grouping loop: [userSessions[name] = append(userSessions[name], a)]. *)
Definition groupActivities (activities : list VoiceChannelUser)
  : gmap string (list VoiceChannelUser) :=
  foldl (λ m activity,
           <[DisplayName activity :=
               default [] (m !! DisplayName activity) ++ [activity]]> m)
        ∅ activities.

Section Reconstructor.

(** [time.Parse(time.RFC3339, ·)]; [None] is the error result. *)
Variable Parse : string → option Time.

(** The state of the loops: the open session ([currentSession], [None] for
    [nil]) and the sessions appended so far. *)
Definition loopState : Type := option Session * list Session.

(** One iteration of the inner loop; [None] is the early [return nil]. *)
Definition activityStep (st : loopState) (activity : VoiceChannelUser)
  : option loopState :=
  let '(currentSession, sessions) := st in
  if Active activity =? 2 then
    match currentSession with
    | None =>
        startTime ← Parse (CreateTime activity);
        endTime ← Parse (UpdateTime activity);
        Some (Some (mkSession (DisplayName activity) (UserID activity)
                              startTime endTime), sessions)
    | Some cur =>
        startTime ← Parse (CreateTime activity);
        endTime ← Parse (UpdateTime activity);
        Some (Some (mkSession (Name cur) (GoogleID cur)
                              (minTime (StartTime cur) startTime)
                              (maxTime (EndTime cur) endTime)), sessions)
    end
  else
    match currentSession with
    | Some cur =>
        if Active activity =? 0 then
          endTime ← Parse (UpdateTime activity);
          Some (None,
                sessions ++ [mkSession (Name cur) (GoogleID cur) (StartTime cur)
                                       (maxTime (EndTime cur) endTime)])
        else Some st
    | None => Some st
    end.

(** The inner loop over the events of one display name. *)
Fixpoint activitiesLoop (userActivities : list VoiceChannelUser)
                        (st : loopState) : option loopState :=
  match userActivities with
  | [] => Some st
  | activity :: rest => st' ← activityStep st activity; activitiesLoop rest st'
  end.

(** After the inner loop a session that is still open is appended. *)
Definition appendOpen (st : loopState) : list Session :=
  match st.1 with
  | Some cur => st.2 ++ [cur]
  | None => st.2
  end.

(** The outer loop, visiting the keys of the map in the order [keys];
    [currentSession] starts as [nil] for every key. *)
Fixpoint rangeUserSessions (userSessions : gmap string (list VoiceChannelUser))
                           (keys : list string) (sessions : list Session)
  : option (list Session) :=
  match keys with
  | [] => Some sessions
  | k :: keys' =>
      st ← activitiesLoop (default [] (userSessions !! k)) (None, sessions);
      rangeUserSessions userSessions keys' (appendOpen st)
  end.

(** [processActivities] with the iteration order of the map made explicit.
    An aborted run returns the [nil] slice, which is the empty list. *)
Definition processActivitiesIn (keys : list string)
                               (activities : list VoiceChannelUser)
  : list Session :=
  default [] (rangeUserSessions (groupActivities activities) keys []).

(** Go leaves the iteration order of a map unspecified: every key is visited
    exactly once, in some order. *)
Definition rangeOrder {V} (m : gmap string V) (keys : list string) : Prop :=
  NoDup keys ∧ ∀ k, k ∈ keys ↔ is_Some (m !! k).

(** The results [processActivities] can return on [activities]. *)
Definition processActivitiesReturns (activities : list VoiceChannelUser)
                                    (result : list Session) : Prop :=
  ∃ keys, rangeOrder (groupActivities activities) keys
          ∧ result = processActivitiesIn keys activities.

(** An executable instance, with the keys in the order the map lists them. *)
Definition processActivities (activities : list VoiceChannelUser)
  : list Session :=
  processActivitiesIn (map_to_list (groupActivities activities)).*1 activities.

(** The sessions of one display name, taken alone. *)
Definition userResult (userActivities : list VoiceChannelUser)
  : option (list Session) :=
  appendOpen <$> activitiesLoop userActivities (None, []).

(** [s] was opened by the presence signal [a] of [userActivities]: no session
    was open when [a] arrived, and [s] bears the name and user id of [a]. *)
Definition openedBy (userActivities : list VoiceChannelUser)
                    (a : VoiceChannelUser) (s : Session) : Prop :=
  ∃ pre rest o,
    userActivities = pre ++ a :: rest ∧ Active a = 2
    ∧ activitiesLoop pre (None, []) = Some (None, o)
    ∧ GoogleID s = UserID a ∧ Name s = DisplayName a.

End Reconstructor.

(** ** Nested-session filter: [FilterSessions] *)

(** The comparison handed to [sort.Slice]. *)
Definition less (a b : Session) : bool :=
  if String.eqb (Name a) (Name b) then Before (StartTime a) (StartTime b)
  else String.ltb (Name a) (Name b).

(** The test of the inner loop on one earlier session. *)
Definition containsSession (current earlier : Session) : bool :=
  String.eqb (Name earlier) (Name current)
  && Before (StartTime earlier) (StartTime current)
  && After (EndTime earlier) (EndTime current).

(** The inner loop: [isSubSession] after scanning [sessions[0..i)]. *)
Definition isSubSession (earlier : list Session) (current : Session) : bool :=
  existsb (containsSession current) earlier.

(** The outer loop, with [earlier] the sessions before index [i]. *)
Fixpoint filterLoop (earlier rest : list Session) : list Session :=
  match rest with
  | [] => []
  | current :: rest' =>
      (if isSubSession earlier current then [] else [current])
      ++ filterLoop (earlier ++ [current]) rest'
  end.

(** What [sort.Slice] guarantees for [sorted]: a rearrangement of the slice
    in which no element is [less] than one before it.  The order of elements
    that [less] does not separate is unspecified. *)
Fixpoint sortedBy (lt : Session → Session → bool) (l : list Session) : bool :=
  match l with
  | [] => true
  | a :: l' => forallb (λ b, negb (lt b a)) l' && sortedBy lt l'
  end.

Definition sortSlice (sessions sorted : list Session) : Prop :=
  sorted ≡ₚ sessions ∧ sortedBy less sorted = true.

(** The results [FilterSessions] can return on [sessions]. *)
Definition FilterSessionsReturns (sessions result : list Session) : Prop :=
  ∃ sorted, sortSlice sessions sorted ∧ result = filterLoop [] sorted.

(** An executable instance, with a stable sort. *)
Definition notLess (a b : Session) : Prop := less b a = false.

#[global] Instance notLess_dec : RelDecision notLess :=
  λ a b, decide (less b a = false).

Definition FilterSessions (sessions : list Session) : list Session :=
  filterLoop [] (merge_sort notLess sessions).

(** ** Window aggregation: [CalculateTotalTimeForDate] *)

Definition userKey (s : Session) : string := Name s +:+ GoogleID s.

Section Aggregator.

Variable date : Time.

Definition startOfDay : Time := Truncate date (24 * Hour).
Definition start3h : Time := Add startOfDay (3 * Hour).
Definition end5h : Time := Add startOfDay (5 * Hour).

(** The body of the loop over the sessions. *)
Definition totalTimeStep (totalTimeMap : gmap string SessionTime.t) (s : Session)
  : gmap string SessionTime.t :=
  if (Year (StartTime s) =? Year date)
     && (YearDay (StartTime s) =? YearDay date) then
    let effectiveStart :=
      if Before (StartTime s) start3h then start3h else StartTime s in
    let effectiveEnd :=
      if After (EndTime s) end5h then end5h else EndTime s in
    if Before effectiveStart effectiveEnd then
      let duration := Sub effectiveEnd effectiveStart in
      match totalTimeMap !! userKey s with
      | Some sessionTime =>
          <[userKey s :=
              SessionTime.mk (SessionTime.Name sessionTime)
                             (SessionTime.GoogleID sessionTime)
                             (wrap64 (SessionTime.TotalTime sessionTime + duration))
                             (SessionTime.Date sessionTime)]> totalTimeMap
      | None =>
          <[userKey s :=
              SessionTime.mk (Name s) (GoogleID s) duration startOfDay]>
            totalTimeMap
      end
    else totalTimeMap
  else totalTimeMap.

Definition CalculateTotalTimeForDate (sessions : list Session)
  : gmap string SessionTime.t :=
  foldl totalTimeStep ∅ sessions.

(** The part of a session inside the window, in nanoseconds. *)
Definition windowOverlap (s : Session) : Z :=
  Z.max 0 (Z.min (unixNano (EndTime s)) (unixNano end5h)
           - Z.max (unixNano (StartTime s)) (unixNano start3h)).

(** The total recorded under a key, [0] when there is no record. *)
Definition totalOf (m : gmap string SessionTime.t) (k : string) : Z :=
  from_option SessionTime.TotalTime 0 (m !! k).

End Aggregator.

(** ** Notions used to state the properties *)

(** A session is closed when it does not end before it starts. *)
Definition closed (s : Session) : Prop :=
  unixNano (StartTime s) ≤ unixNano (EndTime s).

(** [t] strictly contains [s]: same display name, [t] starts before [s] and
    ends after it. *)
Definition strictlyContains (t s : Session) : Prop :=
  Name t = Name s
  ∧ unixNano (StartTime t) < unixNano (StartTime s)
  ∧ unixNano (EndTime s) < unixNano (EndTime t).

(** The start of [s] falls on the calendar day of [date], each read in the
    location it carries: the test of [CalculateTotalTimeForDate]. *)
Definition onDate (date : Time) (s : Session) : Prop :=
  Year (StartTime s) = Year date ∧ YearDay (StartTime s) = YearDay date.

(** The same with both instants read in UTC. *)
Definition onUTCDate (date : Time) (s : Session) : Prop :=
  Year (UTC (StartTime s)) = Year (UTC date)
  ∧ YearDay (UTC (StartTime s)) = YearDay (UTC date).

(** The sum of what the sessions recorded under [k] have inside the window;
    one summand is at most two hours. *)
Definition overlapSum (date : Time) (k : string) (sessions : list Session) : Z :=
  foldr (λ s acc, if decide (userKey s = k ∧ onDate date s)
                  then windowOverlap date s + acc else acc) 0 sessions.

(** ** Sample inputs *)

Definition event (name uid create update : string) (active : Z)
  : VoiceChannelUser :=
  mkVoiceChannelUser 0 uid 0 0 name create update active.

Definition timeOf (s : string) : Time := default (mkTime 0 0) (ParseRFC3339 s).

Definition august6 : Time := DateUTC 2024 8 6.
Definition august7 : Time := DateUTC 2024 8 7.

(** A single presence signal whose update time precedes its creation time. *)
Definition backwardsEvent : VoiceChannelUser :=
  event "alice" "u1" "2024-08-06T04:00:00Z" "2024-08-06T03:00:00Z" 2.

Definition backwardsSession : Session :=
  mkSession "alice" "u1"
            (timeOf "2024-08-06T04:00:00Z") (timeOf "2024-08-06T03:00:00Z").


(** A presence signal whose update time is not a timestamp, after a complete
    session of another display name. *)
Definition brokenBatch : list VoiceChannelUser :=
  [event "bob" "u2" "2024-08-06T03:00:00Z" "2024-08-06T03:10:00Z" 2;
   event "bob" "u2" "2024-08-06T03:20:00Z" "2024-08-06T03:20:00Z" 0;
   event "alice" "u1" "2024-08-06T03:00:00Z" "" 2].

(** Two presence signals and an end signal, ten minutes in all. *)
Definition firstSignal : VoiceChannelUser :=
  event "alice" "u1" "2024-08-06T10:00:00Z" "2024-08-06T10:00:00Z" 2.
Definition secondSignal : VoiceChannelUser :=
  event "alice" "u1" "2024-08-06T10:05:00Z" "2024-08-06T10:05:00Z" 2.
Definition endSignal : VoiceChannelUser :=
  event "alice" "u1" "2024-08-06T10:10:00Z" "2024-08-06T10:10:00Z" 0.
Definition tenMinutes : list VoiceChannelUser :=
  [firstSignal; secondSignal; endSignal].
Definition tenMinuteSession : Session :=
  mkSession "alice" "u1"
            (timeOf "2024-08-06T10:00:00Z") (timeOf "2024-08-06T10:10:00Z").

(** A presence signal that arrives late, about an earlier moment. *)
Definition lateSignal : VoiceChannelUser :=
  event "alice" "u1" "2024-08-06T09:55:00Z" "2024-08-06T10:02:00Z" 2.

(** Two user ids under one display name. *)
Definition sharedName : list VoiceChannelUser :=
  [event "alice" "u1" "2024-08-06T03:00:00Z" "2024-08-06T03:00:00Z" 2;
   event "alice" "u2" "2024-08-06T03:30:00Z" "2024-08-06T04:00:00Z" 2;
   event "alice" "u2" "2024-08-06T04:30:00Z" "2024-08-06T04:30:00Z" 0].

Definition sharedSession : Session :=
  mkSession "alice" "u1"
            (timeOf "2024-08-06T03:00:00Z") (timeOf "2024-08-06T04:30:00Z").

(** An end signal with no session open, and an event of another state. *)
Definition strayEnd : VoiceChannelUser :=
  event "bob" "u2" "2024-08-06T03:00:00Z" "2024-08-06T03:05:00Z" 0.
Definition otherState : VoiceChannelUser :=
  event "alice" "u1" "2024-08-06T10:07:00Z" "2024-08-06T10:08:00Z" 1.

Definition clipSession : Session :=
  mkSession "alice" "u1"
            (timeOf "2024-08-06T02:00:00Z") (timeOf "2024-08-06T06:00:00Z").

Definition boundarySession : Session :=
  mkSession "alice" "u1"
            (timeOf "2024-08-05T23:30:00Z") (timeOf "2024-08-06T04:00:00Z").

(** 04:30 to 06:00 UTC on August 6, written five hours west of UTC. *)
Definition westSession : Session :=
  mkSession "alice" "u1"
            (timeOf "2024-08-05T23:30:00-05:00") (timeOf "2024-08-06T01:00:00-05:00").

(** 17:30 UTC on August 6 to 04:00 UTC on August 7, written seven hours east
    of UTC. *)
Definition eastSession : Session :=
  mkSession "alice" "u1"
            (timeOf "2024-08-07T00:30:00+07:00") (timeOf "2024-08-07T11:00:00+07:00").


(** An outer session, one nested in it, one that overlaps it, and one of
    another display name. *)
Definition outerSession : Session :=
  mkSession "alice" "u1" (timeOf "2024-08-06T03:00:00Z") (timeOf "2024-08-06T05:00:00Z").
Definition nestedSession : Session :=
  mkSession "alice" "u1" (timeOf "2024-08-06T03:30:00Z") (timeOf "2024-08-06T04:00:00Z").
Definition overlappingSession : Session :=
  mkSession "alice" "u1" (timeOf "2024-08-06T04:30:00Z") (timeOf "2024-08-06T05:30:00Z").
Definition bobSession : Session :=
  mkSession "bob" "u2" (timeOf "2024-08-06T03:30:00Z") (timeOf "2024-08-06T04:00:00Z").
Definition nestedInput : list Session :=
  [overlappingSession; nestedSession; bobSession; outerSession].
Definition nestedOutput : list Session :=
  [outerSession; overlappingSession; bobSession].

(** ** The rest of the program *)

(** *** More of the [time] package *)

(** The civil month, from 1 to 12, and the day of the month of day number
    [z] (days since 1970-01-01). *)
Definition monthOfDays (z : Z) : Z :=
  let z' := z + 719468 in
  let era := z' / 146097 in
  let doe := z' - era * 146097 in
  let yoe := (doe - doe / 1460 + doe / 36524 - doe / 146096) / 365 in
  let doy := doe - (365 * yoe + yoe / 4 - yoe / 100) in
  let mp := (5 * doy + 2) / 153 in
  if mp <? 10 then mp + 3 else mp - 9.

Definition dayOfDays (z : Z) : Z :=
  let z' := z + 719468 in
  let era := z' / 146097 in
  let doe := z' - era * 146097 in
  let yoe := (doe - doe / 1460 + doe / 36524 - doe / 146096) / 365 in
  let doy := doe - (365 * yoe + yoe / 4 - yoe / 100) in
  let mp := (5 * doy + 2) / 153 in
  doy - (153 * mp + 2) / 5 + 1.

(** [t.Month()] and [t.Day()], read in the location of [t]. *)
Definition Month (t : Time) : Z := monthOfDays (localDays t).
Definition Day (t : Time) : Z := dayOfDays (localDays t).

(** [time.Time{}], the zero time: January 1 of year 1, 00:00:00 UTC. *)
Definition zeroTime : Time := mkTime (- (unixToInternal * Second)) 0.

(** [time.Parse("2006/01/02", s)]: four digits, two and two, with slashes
    and nothing after them, naming a day that exists; the result is midnight
    UTC of that day. *)
Definition ParseSlashDate (s : string) : option Time :=
  '(year, s) ← parseUint 4 0 9999 s;
  s ← expect "/"%char s;
  '(month, s) ← parseUint 2 1 12 s;
  s ← expect "/"%char s;
  '(day, s) ← parseUint 2 1 (daysIn month year) s;
  match s with
  | EmptyString => Some (DateUTC year month day)
  | String _ _ => None
  end.

(** *** [parseCustomDateFormat] *)

(** The date is parsed and then rebuilt with [time.Date] at midnight UTC from
    its year, month and day; [None] is the error result. *)
Definition parseCustomDateFormat (dateStr : string) : option Time :=
  parsedDate ← ParseSlashDate dateStr;
  Some (DateUTC (Year parsedDate) (Month parsedDate) (Day parsedDate)).

(** *** The bounds of the query of [FetchActivities] *)

Module FetchActivities.
(** [time.Date(date.Year(), date.Month(), date.Day(), 0, 0, 0, 0, time.UTC)]
    and [startOfDay.Add(24 * time.Hour).Add(-time.Second)]. *)
Definition startOfDay (date : Time) : Time :=
  DateUTC (Year date) (Month date) (Day date).
Definition endOfDay (date : Time) : Time :=
  Add (Add (startOfDay date) (24 * Hour)) (- Second).
End FetchActivities.

#[global] Instance VoiceChannelUser_eq_dec : EqDecision VoiceChannelUser.
Proof. solve_decision. Defined.

#[global] Instance SessionTime_eq_dec : EqDecision SessionTime.t.
Proof. solve_decision. Defined.

(** *** [SortActivities] *)

(** What [sort.Slice] guarantees, for any element type: no element is less
    than one before it. *)
Fixpoint sliceSorted {A} (lt : A → A → bool) (l : list A) : bool :=
  match l with
  | [] => true
  | a :: l' => forallb (λ b, negb (lt b a)) l' && sliceSorted lt l'
  end.

Section Sorting.

(** [time.Parse(time.RFC3339, ·)], as in the reconstruction. *)
Variable Parse : string → option Time.

(** The creation time as the comparison reads it: the zero time when the
    timestamp does not parse. *)
Definition createTimeOrZero (a : VoiceChannelUser) : Time :=
  default zeroTime (Parse (CreateTime a)).

(** The comparison handed to [sort.Slice]. *)
Definition activityLess (a b : VoiceChannelUser) : bool :=
  let timeI := createTimeOrZero a in
  let timeJ := createTimeOrZero b in
  if String.eqb (DisplayName a) (DisplayName b) then Before timeI timeJ
  else String.ltb (DisplayName a) (DisplayName b).

(** The slices [SortActivities] can leave in place of [activities]. *)
Definition SortActivitiesReturns (activities sorted : list VoiceChannelUser)
  : Prop :=
  sorted ≡ₚ activities ∧ sliceSorted activityLess sorted = true.

(** An executable instance, with a stable sort. *)
Definition activityNotLess (a b : VoiceChannelUser) : Prop :=
  activityLess b a = false.

#[global] Instance activityNotLess_dec : RelDecision activityNotLess :=
  λ a b, decide (activityLess b a = false).

Definition SortActivities (activities : list VoiceChannelUser)
  : list VoiceChannelUser :=
  merge_sort activityNotLess activities.

(** The key the comparison orders by. *)
Definition sortKey (a : VoiceChannelUser) : string * Z :=
  (DisplayName a, unixNano (createTimeOrZero a)).


(** The bounds of [s] are timestamps of events of [l]: the start a creation
    time of a presence signal, the end an update time of a presence or end
    signal. *)
Definition boundsFrom (l : list VoiceChannelUser) (s : Session) : Prop :=
  (∃ a, a ∈ l ∧ Active a = 2 ∧ Parse (CreateTime a) = Some (StartTime s))
  ∧ (∃ b, b ∈ l ∧ (Active b = 2 ∨ Active b = 0)
          ∧ Parse (UpdateTime b) = Some (EndTime s)).

End Sorting.

(** *** [mapToSlice] *)

(** The values of the map, in the order [keys] of the iteration. *)
Definition mapToSliceIn (m : gmap string SessionTime.t) (keys : list string)
  : list SessionTime.t :=
  omap (λ k, m !! k) keys.

(** The slices [mapToSlice] can return. *)
Definition mapToSliceReturns (m : gmap string SessionTime.t)
                             (slice : list SessionTime.t) : Prop :=
  ∃ keys, rangeOrder m keys ∧ slice = mapToSliceIn m keys.

(** An executable instance, in the order the map lists its entries. *)
Definition mapToSlice (m : gmap string SessionTime.t) : list SessionTime.t :=
  (map_to_list m).*2.

(** *** The request handler, after the rows are fetched *)

(** [SortActivities], [processActivities], [FilterSessions] and
    [CalculateTotalTimeForDate] in a row: the maps the handler can obtain. *)
Definition totalTimeReturns (Parse : string → option Time) (date : Time)
                            (activities : list VoiceChannelUser)
                            (totalTime : gmap string SessionTime.t) : Prop :=
  ∃ sorted sessions filteredSessions,
    SortActivitiesReturns Parse activities sorted
    ∧ processActivitiesReturns Parse sorted sessions
    ∧ FilterSessionsReturns sessions filteredSessions
    ∧ totalTime = CalculateTotalTimeForDate date filteredSessions.

(** The slices the handler can pass on to be encoded. *)
Definition handlerReturns (Parse : string → option Time) (date : Time)
                          (activities : list VoiceChannelUser)
                          (totalTimeMap : list SessionTime.t) : Prop :=
  ∃ totalTime,
    totalTimeReturns Parse date activities totalTime
    ∧ mapToSliceReturns totalTime totalTimeMap.

(** An executable instance. *)
Definition handler (Parse : string → option Time) (date : Time)
                   (activities : list VoiceChannelUser) : list SessionTime.t :=
  mapToSlice
    (CalculateTotalTimeForDate date
       (FilterSessions (processActivities Parse (SortActivities Parse activities)))).

(** The number of presence signals in a batch. *)
Definition presenceSignals (activities : list VoiceChannelUser) : nat :=
  length (filter (λ a, Active a = 2) activities).

(** *** More sample inputs *)

(** The ten-minute batch in another arrival order, with a stray event. *)
Definition shuffledTenMinutes : list VoiceChannelUser :=
  [endSignal; firstSignal; secondSignal].

(** Two display names inside the window, in mixed arrival order, and the
    same rows sorted. *)
Definition morning : list VoiceChannelUser :=
  [event "bob" "u2" "2024-08-06T04:40:00Z" "2024-08-06T04:45:00Z" 0;
   event "alice" "u1" "2024-08-06T03:10:00Z" "2024-08-06T03:20:00Z" 2;
   event "bob" "u2" "2024-08-06T04:00:00Z" "2024-08-06T04:30:00Z" 2;
   event "alice" "u1" "2024-08-06T03:40:00Z" "2024-08-06T03:50:00Z" 0].

Definition sortedMorning : list VoiceChannelUser :=
  [event "alice" "u1" "2024-08-06T03:10:00Z" "2024-08-06T03:20:00Z" 2;
   event "alice" "u1" "2024-08-06T03:40:00Z" "2024-08-06T03:50:00Z" 0;
   event "bob" "u2" "2024-08-06T04:00:00Z" "2024-08-06T04:30:00Z" 2;
   event "bob" "u2" "2024-08-06T04:40:00Z" "2024-08-06T04:45:00Z" 0].

Definition aliceMorning : Session :=
  mkSession "alice" "u1"
            (timeOf "2024-08-06T03:10:00Z") (timeOf "2024-08-06T03:50:00Z").
Definition bobMorning : Session :=
  mkSession "bob" "u2"
            (timeOf "2024-08-06T04:00:00Z") (timeOf "2024-08-06T04:45:00Z").

Definition aliceRecord : SessionTime.t :=
  SessionTime.mk "alice" "u1" (40 * Minute) august6.
Definition bobRecord : SessionTime.t :=
  SessionTime.mk "bob" "u2" (45 * Minute) august6.

(** ** Facts about the [time] model *)

Lemma Before_lt t u : Before t u = true ↔ unixNano t < unixNano u.
Proof. unfold Before. apply Z.ltb_lt. Qed.

Lemma After_lt t u : After t u = true ↔ unixNano u < unixNano t.
Proof. unfold After. apply Z.ltb_lt. Qed.

Lemma unixNano_minTime a b :
  unixNano (minTime a b) = Z.min (unixNano a) (unixNano b).
Proof.
  unfold minTime, Before.
  destruct (Z.ltb_spec (unixNano a) (unixNano b)); lia.
Qed.

Lemma unixNano_maxTime a b :
  unixNano (maxTime a b) = Z.max (unixNano a) (unixNano b).
Proof.
  unfold maxTime, After.
  destruct (Z.ltb_spec (unixNano b) (unixNano a)); lia.
Qed.

(** ** Facts about the reconstruction loops *)

Lemma groupActivities_snoc l a :
  groupActivities (l ++ [a])
  = <[DisplayName a := default [] (groupActivities l !! DisplayName a) ++ [a]]>
      (groupActivities l).
Proof. unfold groupActivities. by rewrite foldl_app. Qed.

(** The map holds, under each display name, the events of that name in
    arrival order. *)
Lemma groupActivities_lookup l k :
  default [] (groupActivities l !! k)
  = filter (λ a, DisplayName a = k) l.
Proof.
  induction l as [|a l IH] using rev_ind; [done|].
  rewrite groupActivities_snoc, filter_app, filter_cons, filter_nil.
  destruct (decide (DisplayName a = k)) as [->|Hne].
  - rewrite lookup_insert_eq. simpl. by rewrite IH.
  - rewrite lookup_insert_ne by done. by rewrite IH, app_nil_r.
Qed.

Lemma groupActivities_is_Some l k :
  is_Some (groupActivities l !! k) ↔ k ∈ DisplayName <$> l.
Proof.
  induction l as [|a l IH] using rev_ind.
  - unfold groupActivities; simpl. rewrite lookup_empty, elem_of_nil.
    split; [by intros [? ?]|done].
  - rewrite groupActivities_snoc, fmap_app, elem_of_app. simpl.
    rewrite list_elem_of_singleton.
    destruct (decide (DisplayName a = k)) as [->|Hne].
    + rewrite lookup_insert_eq. split; [by right|by eauto].
    + rewrite lookup_insert_ne by done. rewrite IH. split; [by left|].
      intros [?|?]; [done|congruence].
Qed.

Section ReconstructorFacts.

Variable Parse : string → option Time.

Local Abbreviation step := (activityStep Parse).
Local Abbreviation loop := (activitiesLoop Parse).

Lemma activitiesLoop_cons a l st :
  loop (a :: l) st = step st a ≫= loop l.
Proof. done. Qed.

(** The sessions appended so far are only ever extended. *)
Lemma activityStep_prefix cur out a :
  step (cur, out) a = (λ st, (st.1, out ++ st.2)) <$> step (cur, []) a.
Proof.
  unfold activityStep.
  destruct (Active a =? 2), cur as [c|]; simpl;
    try destruct (Active a =? 0); simpl;
    repeat (destruct (Parse _); simpl);
    rewrite ?app_nil_r; done.
Qed.

Lemma activitiesLoop_prefix l cur out o :
  loop l (cur, out ++ o) = (λ st, (st.1, out ++ st.2)) <$> loop l (cur, o).
Proof.
  revert cur o. induction l as [|a l IH]; intros cur o; [done|].
  rewrite !activitiesLoop_cons.
  rewrite (activityStep_prefix cur (out ++ o)), (activityStep_prefix cur o).
  destruct (step (cur, []) a) as [[cur' o']|]; [|done].
  simpl. by rewrite <- (assoc_L (++)), IH.
Qed.

Lemma activitiesLoop_app l1 l2 st :
  loop (l1 ++ l2) st = loop l1 st ≫= loop l2.
Proof.
  revert st. induction l1 as [|a l1 IH]; intros st; [done|].
  rewrite <- app_comm_cons, !activitiesLoop_cons.
  destruct (step st a); [apply IH|done].
Qed.

(** The four ways an iteration can go on. *)
Lemma activityStep_Some cur out a st' :
  step (cur, out) a = Some st' →
  (Active a = 2 ∧ cur = None ∧ ∃ c u,
      Parse (CreateTime a) = Some c ∧ Parse (UpdateTime a) = Some u
      ∧ st' = (Some (mkSession (DisplayName a) (UserID a) c u), out))
  ∨ (Active a = 2 ∧ ∃ s c u, cur = Some s
      ∧ Parse (CreateTime a) = Some c ∧ Parse (UpdateTime a) = Some u
      ∧ st' = (Some (mkSession (Name s) (GoogleID s)
                               (minTime (StartTime s) c)
                               (maxTime (EndTime s) u)), out))
  ∨ (Active a = 0 ∧ ∃ s u, cur = Some s ∧ Parse (UpdateTime a) = Some u
      ∧ st' = (None, out ++ [mkSession (Name s) (GoogleID s) (StartTime s)
                                       (maxTime (EndTime s) u)]))
  ∨ (Active a ≠ 2 ∧ (Active a ≠ 0 ∨ cur = None) ∧ st' = (cur, out)).
Proof.
  unfold activityStep. intros H.
  destruct (Z.eqb_spec (Active a) 2) as [E2|E2].
  - destruct cur as [s|];
      destruct (Parse (CreateTime a)) as [c|] eqn:Ec; simpl in H; try done;
      destruct (Parse (UpdateTime a)) as [u|] eqn:Eu; simpl in H; try done;
      simplify_eq.
    + right; left. split; [done|]. by exists s, c, u.
    + left. repeat split; [done|]. by exists c, u.
  - destruct cur as [s|]; [destruct (Z.eqb_spec (Active a) 0) as [E0|E0]|].
    + destruct (Parse (UpdateTime a)) as [u|] eqn:Eu; simpl in H; [|done].
      simplify_eq. right; right; left. split; [done|]. by exists s, u.
    + simplify_eq. right; right; right. auto.
    + simplify_eq. right; right; right. auto.
Qed.

(** Invariants of the inner loop. *)
Lemma activitiesLoop_invariant (I : loopState → Prop) l :
  (∀ st a st', a ∈ l → I st → step st a = Some st' → I st') →
  ∀ st st', I st → loop l st = Some st' → I st'.
Proof.
  induction l as [|a l IH]; intros Hstep st st' HI Hloop.
  - simpl in Hloop. by simplify_eq.
  - rewrite activitiesLoop_cons in Hloop.
    destruct (step st a) as [st1|] eqn:E; [|done].
    simpl in Hloop. eapply IH; [| |exact Hloop].
    + intros ??? Hin. apply Hstep. by right.
    + eapply Hstep; [by left|exact HI|exact E].
Qed.

(** The outer loop concatenates what each display name yields alone and
    aborts as soon as one of them aborts. *)
Lemma rangeUserSessions_concat m keys out :
  rangeUserSessions Parse m keys out
  = (λ outs, out ++ concat outs)
      <$> mapM (λ k, userResult Parse (default [] (m !! k))) keys.
Proof.
  revert out. induction keys as [|k keys IH]; intros out.
  - simpl. by rewrite app_nil_r.
  - simpl. unfold userResult in *.
    rewrite <- (app_nil_r out) at 1. rewrite activitiesLoop_prefix.
    destruct (loop (default [] (m !! k)) (None, [])) as [[cur o]|]; [|done].
    simpl. rewrite IH.
    destruct (mapM _ keys) as [outs|]; [|done]. simpl.
    f_equal. unfold appendOpen; simpl.
    destruct cur; simpl; by rewrite <- ?(assoc_L (++)).
Qed.

Lemma processActivitiesIn_concat keys activities :
  processActivitiesIn Parse keys activities
  = default []
      ((λ outs, concat outs)
         <$> mapM (λ k, userResult Parse
                          (filter (λ a, DisplayName a = k) activities)) keys).
Proof.
  unfold processActivitiesIn. rewrite rangeUserSessions_concat.
  f_equal. simpl.
  erewrite mapM_ext; [done|].
  intros k. by rewrite groupActivities_lookup.
Qed.

(** The order in which the map lists its keys is an admissible one. *)
Lemma rangeOrder_map_to_list {V} (m : gmap string V) :
  rangeOrder m (map_to_list m).*1.
Proof.
  split; [apply NoDup_fst_map_to_list|].
  intros k. rewrite list_elem_of_fmap. split.
  - intros [[k' v] [-> Hin]]. apply elem_of_map_to_list in Hin. by eexists.
  - intros [v Hv]. exists (k, v). split; [done|]. by apply elem_of_map_to_list.
Qed.

Lemma processActivities_returns activities :
  processActivitiesReturns Parse activities (processActivities Parse activities).
Proof. eexists. split; [apply rangeOrder_map_to_list|done]. Qed.

(** *** Closed sessions *)

Lemma userResult_closed l out :
  (∀ a c u, a ∈ l → Active a = 2 →
            Parse (CreateTime a) = Some c → Parse (UpdateTime a) = Some u →
            unixNano c ≤ unixNano u) →
  userResult Parse l = Some out → Forall closed out.
Proof.
  intros Hl Hres. unfold userResult in Hres.
  destruct (loop l (None, [])) as [st|] eqn:Hloop; [|done].
  simpl in Hres. simplify_eq.
  assert ((∀ c, st.1 = Some c → closed c) ∧ Forall closed st.2) as [Hcur Hout].
  { apply (activitiesLoop_invariant
             (λ st, (∀ c, st.1 = Some c → closed c) ∧ Forall closed st.2)
             l) with (st := (None, [])); [|by split|exact Hloop].
    clear Hloop st. intros [cur out] a [cur' out'] Hin [Hcur Hout] Hstep.
    simpl in *.
    destruct (activityStep_Some _ _ _ _ Hstep)
      as [(E & -> & c & u & Hc & Hu & ?)
         |[(E & s & c & u & -> & Hc & Hu & ?)
         |[(E & s & u & -> & Hu & ?)|(_ & _ & ?)]]]; simplify_eq; simpl.
    - split; [|done]. intros ? [= <-]. unfold closed; simpl. by eapply Hl.
    - split; [|done]. intros ? [= <-].
      specialize (Hcur _ eq_refl). unfold closed in *; simpl.
      rewrite unixNano_minTime, unixNano_maxTime. lia.
    - split; [done|]. apply Forall_app. split; [done|].
      constructor; [|constructor].
      specialize (Hcur _ eq_refl). unfold closed in *; simpl.
      rewrite unixNano_maxTime. lia.
    - done. }
  unfold appendOpen. destruct st as [[c|] out]; simpl in *; [|done].
  apply Forall_app. split; [done|]. constructor; [by apply Hcur|constructor].
Qed.

(** C1, in the form that holds: when no presence signal is updated before
    it is created, every session [processActivities] returns is closed,
    whether it was closed by an end signal or was still open at the end of
    its partition. *)
Theorem processActivities_closed activities result :
  (∀ a c u, a ∈ activities → Active a = 2 →
            Parse (CreateTime a) = Some c → Parse (UpdateTime a) = Some u →
            unixNano c ≤ unixNano u) →
  processActivitiesReturns Parse activities result →
  Forall closed result.
Proof.
  intros Hacts (keys & _ & ->). rewrite processActivitiesIn_concat.
  destruct (mapM _ keys) as [outs|] eqn:HM; simpl; [|constructor].
  apply Forall_concat. apply mapM_Some in HM.
  induction HM as [|k out keys outs Hk _ IH]; constructor; [|done].
  eapply userResult_closed; [|exact Hk].
  intros a c u [_ Hin]%list_elem_of_filter. by apply Hacts.
Qed.

(** *** Malformed timestamps *)

Lemma activitiesLoop_Active_malformed l a st :
  a ∈ l → Active a = 2 →
  Parse (CreateTime a) = None ∨ Parse (UpdateTime a) = None →
  loop l st = None.
Proof.
  intros Hin E2 Hbad. revert st.
  induction l as [|x l IH]; intros st; [by apply elem_of_nil in Hin|].
  rewrite activitiesLoop_cons.
  destruct (step st x) as [st1|] eqn:Hstep; [simpl|done].
  apply elem_of_cons in Hin as [<-|Hin]; [|by apply IH].
  destruct st as [cur out].
  destruct (activityStep_Some _ _ _ _ Hstep)
    as [(_ & _ & c & u & Hc & Hu & _)
       |[(_ & s & c & u & _ & Hc & Hu & _)
       |[(E & _)|(E & _)]]]; [| |congruence..];
    destruct Hbad; congruence.
Qed.



(** *** Widening *)

(** C7: while a session is open a presence signal replaces its start by the
    earlier of the start and the creation time and its end by the later of
    the end and the update time; over any run of presence signals the start
    never moves later, the end never moves earlier, and no session is
    appended. *)
Theorem activityStep_widen cur out a c u l :
  Active a = 2 →
  Parse (CreateTime a) = Some c → Parse (UpdateTime a) = Some u →
  Forall (λ b, Active b = 2 ∧ is_Some (Parse (CreateTime b))
               ∧ is_Some (Parse (UpdateTime b))) l →
  let cur1 := mkSession (Name cur) (GoogleID cur)
                        (minTime (StartTime cur) c) (maxTime (EndTime cur) u) in
  step (Some cur, out) a = Some (Some cur1, out)
  ∧ unixNano (StartTime cur1) = Z.min (unixNano (StartTime cur)) (unixNano c)
  ∧ unixNano (EndTime cur1) = Z.max (unixNano (EndTime cur)) (unixNano u)
  ∧ ∃ cur2, loop (a :: l) (Some cur, out) = Some (Some cur2, out)
            ∧ unixNano (StartTime cur2) ≤ unixNano (StartTime cur1)
              ≤ unixNano (StartTime cur)
            ∧ unixNano (EndTime cur) ≤ unixNano (EndTime cur1)
              ≤ unixNano (EndTime cur2).
Proof.
  intros E2 Hc Hu Hl cur1.
  assert (step (Some cur, out) a = Some (Some cur1, out)) as Hstep.
  { unfold activityStep. by rewrite E2, Hc, Hu. }
  assert (unixNano (StartTime cur1)
            = Z.min (unixNano (StartTime cur)) (unixNano c)) as Hs1
    by apply unixNano_minTime.
  assert (unixNano (EndTime cur1)
            = Z.max (unixNano (EndTime cur)) (unixNano u)) as He1
    by apply unixNano_maxTime.
  do 3 (split; [done|]).
  rewrite activitiesLoop_cons, Hstep.
  cbn [mbind option_bind].
  assert (unixNano (StartTime cur1) ≤ unixNano (StartTime cur)
          ∧ unixNano (EndTime cur) ≤ unixNano (EndTime cur1)) as Hmono by lia.
  clearbody cur1. clear Hstep.
  cut (∃ cur2, loop l (Some cur1, out) = Some (Some cur2, out)
               ∧ unixNano (StartTime cur2) ≤ unixNano (StartTime cur1)
               ∧ unixNano (EndTime cur1) ≤ unixNano (EndTime cur2)).
  { intros (cur2 & ? & ? & ?). exists cur2. split; [done|]. lia. }
  clear Hmono Hs1 He1. revert cur1.
  induction Hl as [|b l (Eb & [cb Hcb] & [ub Hub]) _ IH]; intros cur1.
  - exists cur1. split; [done|]. lia.
  - rewrite activitiesLoop_cons. unfold activityStep at 1.
    rewrite Eb, Hcb, Hub. cbn [mbind option_bind Z.eqb Pos.eqb].
    destruct (IH (mkSession (Name cur1) (GoogleID cur1)
                            (minTime (StartTime cur1) cb)
                            (maxTime (EndTime cur1) ub)))
      as (cur2 & Hloop & Hs & He).
    exists cur2. split; [done|]. simpl in Hs, He.
    rewrite unixNano_minTime in Hs. rewrite unixNano_maxTime in He. lia.
Qed.

(** *** What one display name contributes *)

Lemma userResult_Name l k out :
  Forall (λ a, DisplayName a = k) l →
  userResult Parse l = Some out → Forall (λ s, Name s = k) out.
Proof.
  intros Hl Hres. unfold userResult in Hres.
  destruct (loop l (None, [])) as [st|] eqn:Hloop; [|done].
  simpl in Hres. simplify_eq.
  assert ((∀ c, st.1 = Some c → Name c = k)
          ∧ Forall (λ s, Name s = k) st.2) as [Hcur Hout].
  { apply (activitiesLoop_invariant
             (λ st, (∀ c, st.1 = Some c → Name c = k)
                    ∧ Forall (λ s, Name s = k) st.2)
             l) with (st := (None, [])); [|by split|exact Hloop].
    clear Hloop st. intros [cur out] a [cur' out'] Hin [Hcur Hout] Hstep.
    simpl in *.
    destruct (activityStep_Some _ _ _ _ Hstep)
      as [(E & -> & c & u & Hc & Hu & ?)
         |[(E & s & c & u & -> & Hc & Hu & ?)
         |[(E & s & u & -> & Hu & ?)|(_ & _ & ?)]]]; simplify_eq; simpl.
    - split; [|done]. intros ? [= <-]. simpl.
      by eapply (proj1 (Forall_forall _ _) Hl).
    - split; [|done]. intros ? [= <-]. simpl. by apply Hcur.
    - split; [done|]. apply Forall_app. split; [done|].
      constructor; [|constructor]. simpl. by apply Hcur.
    - done. }
  unfold appendOpen. destruct st as [[c|] out]; simpl in *; [|done].
  apply Forall_app. split; [done|]. constructor; [by apply Hcur|constructor].
Qed.

Lemma filter_Name_other k k0 (out : list Session) :
  k ≠ k0 → Forall (λ s, Name s = k) out →
  filter (λ s, Name s = k0) out = [].
Proof.
  intros Hne Hout. induction Hout as [|s out Hs _ IH]; [done|].
  rewrite filter_cons_False by congruence. done.
Qed.

Lemma filter_Name_same k (out : list Session) :
  Forall (λ s, Name s = k) out → filter (λ s, Name s = k) out = out.
Proof.
  intros Hout. induction Hout as [|s out Hs _ IH]; [done|].
  rewrite filter_cons_True by done. by rewrite IH.
Qed.

(** In the result of a run that is not abandoned, the sessions of a display
    name are those its own events yield, whatever the iteration order. *)
Lemma rangeUserSessions_by_name activities keys out k0 :
  NoDup keys →
  rangeUserSessions Parse (groupActivities activities) keys [] = Some out →
  filter (λ s, Name s = k0) out
  = if decide (k0 ∈ keys)
    then default [] (userResult Parse
                       (filter (λ a, DisplayName a = k0) activities))
    else [].
Proof.
  intros Hnd. rewrite rangeUserSessions_concat.
  destruct (mapM _ keys) as [outs|] eqn:HM; [|done].
  simpl. intros [= <-]. apply mapM_Some in HM.
  induction HM as [|k o keys outs Hk _ IH]; [done|].
  rewrite groupActivities_lookup in Hk.
  apply NoDup_cons in Hnd as [Hnotin Hnd].
  simpl. rewrite filter_app, (IH Hnd).
  assert (Forall (λ s, Name s = k) o) as Ho.
  { eapply userResult_Name; [|exact Hk].
    apply Forall_forall. by intros a [? _]%list_elem_of_filter. }
  destruct (decide (k = k0)) as [->|Hne].
  - rewrite Hk, filter_Name_same by done.
    destruct (decide (k0 ∈ keys)); [done|].
    destruct (decide (k0 ∈ k0 :: keys)) as [|Hn]; [by rewrite app_nil_r|].
    exfalso. apply Hn. by left.
  - rewrite (filter_Name_other k k0) by done. simpl.
    destruct (decide (k0 ∈ keys)) as [Hin|Hnin],
             (decide (k0 ∈ k :: keys)) as [Hin'|Hnin']; try done.
    + exfalso. apply Hnin'. by right.
    + apply elem_of_cons in Hin' as [?|?]; congruence.
Qed.

Lemma rangeOrder_singleton {V} (m : gmap string V) keys k :
  rangeOrder m keys → (∀ k', is_Some (m !! k') ↔ k' = k) → keys = [k].
Proof.
  intros [Hnd Hkeys] Hm.
  apply Permutation_singleton_r, NoDup_Permutation; [done|apply NoDup_singleton|].
  intros k'. rewrite Hkeys, Hm, list_elem_of_singleton. done.
Qed.

(** *** A session left open *)

(** C8: a presence signal that is the only event of its display name yields
    exactly one session, running from its creation time to its update time,
    although no end signal follows. *)
Theorem processActivities_trailing a T0 T1 :
  Active a = 2 →
  Parse (CreateTime a) = Some T0 → Parse (UpdateTime a) = Some T1 →
  let s := mkSession (DisplayName a) (UserID a) T0 T1 in
  (∀ result, processActivitiesReturns Parse [a] result ↔ result = [s])
  ∧ (∀ activities keys out,
       filter (λ b, DisplayName b = DisplayName a) activities = [a] →
       rangeOrder (groupActivities activities) keys →
       rangeUserSessions Parse (groupActivities activities) keys [] = Some out →
       filter (λ x, Name x = DisplayName a) out = [s]).
Proof.
  intros E2 Hc Hu s.
  assert (userResult Parse [a] = Some [s]) as Hone.
  { unfold userResult. rewrite activitiesLoop_cons. unfold activityStep.
    by rewrite E2, Hc, Hu. }
  split.
  - assert (∀ keys, rangeOrder (groupActivities [a]) keys →
                    keys = [DisplayName a]) as Hkeys.
    { intros keys Hord. eapply rangeOrder_singleton; [done|].
      intros k'. rewrite groupActivities_is_Some. simpl.
      by rewrite list_elem_of_singleton. }
    assert (processActivitiesIn Parse [DisplayName a] [a] = [s]) as Hrun.
    { rewrite processActivitiesIn_concat. simpl.
      rewrite filter_cons_True, filter_nil by done. by rewrite Hone. }
    intros result. split.
    + intros (keys & Hord & ->). by rewrite (Hkeys _ Hord).
    + intros ->. exists [DisplayName a]. split; [|done].
      split; [apply NoDup_singleton|].
      intros k. rewrite groupActivities_is_Some. simpl.
      by rewrite !list_elem_of_singleton.
  - intros activities keys out Hpart [Hnd Hkeys] Hrun.
    rewrite (rangeUserSessions_by_name _ _ _ _ Hnd Hrun), Hpart, Hone.
    rewrite decide_True; [done|].
    apply Hkeys, groupActivities_is_Some, list_elem_of_fmap.
    exists a. split; [done|].
    assert (a ∈ filter (λ b, DisplayName b = DisplayName a) activities)
      as [_ ?]%list_elem_of_filter by (rewrite Hpart; by left).
    done.
Qed.

(** A batch in which every event bears the same display name leaves the
    iteration no choice. *)
Lemma processActivitiesReturns_one_name activities k result :
  activities ≠ [] → Forall (λ a, DisplayName a = k) activities →
  processActivitiesReturns Parse activities result
  ↔ result = processActivitiesIn Parse [k] activities.
Proof.
  intros Hne Hall.
  assert (∀ k', is_Some (groupActivities activities !! k') ↔ k' = k) as Hm.
  { intros k'. rewrite groupActivities_is_Some, list_elem_of_fmap. split.
    - intros (a & -> & Hin). by eapply (proj1 (Forall_forall _ _) Hall).
    - intros ->. destruct activities as [|a l]; [done|].
      exists a. split; [|by left]. symmetry. exact (Forall_inv Hall). }
  split.
  - intros (keys & Hord & ->). by rewrite (rangeOrder_singleton _ _ _ Hord Hm).
  - intros ->. exists [k]. split; [|done]. split; [apply NoDup_singleton|].
    intros k'. by rewrite Hm, list_elem_of_singleton.
Qed.

(** *** Whose session it is *)

Lemma activitiesLoop_extends l cur out st :
  loop l (cur, out) = Some st → ∃ tl, st.2 = out ++ tl.
Proof.
  rewrite <- (app_nil_r out) at 1. rewrite activitiesLoop_prefix.
  destruct (loop l (cur, [])) as [[cur' o]|]; [|done].
  simpl. intros [= <-]. by exists o.
Qed.

(** Once a session is open, the next session to be appended, or the one
    still open at the end, bears its name and user id. *)
Lemma activitiesLoop_open l c out st :
  loop l (Some c, out) = Some st →
  ∃ s tl, appendOpen st = out ++ s :: tl
          ∧ GoogleID s = GoogleID c ∧ Name s = Name c.
Proof.
  revert c out. induction l as [|e l IH]; intros c out Hloop.
  - simpl in Hloop. simplify_eq. by exists c, [].
  - rewrite activitiesLoop_cons in Hloop.
    destruct (step (Some c, out) e) as [st1|] eqn:Hstep; [|done].
    simpl in Hloop.
    destruct (activityStep_Some _ _ _ _ Hstep)
      as [(_ & ? & _)
         |[(_ & s & ? & ? & ? & _ & _ & ->)
         |[(_ & s & u & ? & _ & ->)|(_ & _ & ->)]]]; simplify_eq.
    + apply IH in Hloop as (s' & tl & ? & ? & ?). by exists s', tl.
    + destruct (activitiesLoop_extends _ _ _ _ Hloop) as [tl Htl].
      unfold appendOpen. destruct st as [[x|] o]; simpl in *; subst o.
      * eexists _, (tl ++ [x]).
        split; [by rewrite <- !(assoc_L (++))|done].
      * eexists _, tl. split; [by rewrite <- !(assoc_L (++))|done].
    + by apply IH.
Qed.

Lemma activitiesLoop_opener a rest out st :
  Active a = 2 → loop (a :: rest) (None, out) = Some st →
  ∃ s tl, appendOpen st = out ++ s :: tl
          ∧ GoogleID s = UserID a ∧ Name s = DisplayName a.
Proof.
  intros E2 Hloop. rewrite activitiesLoop_cons in Hloop.
  destruct (step (None, out) a) as [st1|] eqn:Hstep; [|done].
  simpl in Hloop.
  destruct (activityStep_Some _ _ _ _ Hstep)
    as [(_ & _ & c & u & _ & _ & ->)
       |[(_ & ? & ? & ? & ? & _)
       |[(? & _)|(? & _)]]]; [|done|congruence..].
  by apply activitiesLoop_open in Hloop.
Qed.

(** *** Events that are passed over *)

Lemma activityStep_skip st e :
  Active e ≠ 2 → Active e ≠ 0 ∨ st.1 = None → step st e = Some st.
Proof.
  intros N2 H. destruct st as [cur out]. unfold activityStep.
  destruct (Z.eqb_spec (Active e) 2); [done|].
  destruct cur as [c|]; [|done].
  destruct (Z.eqb_spec (Active e) 0); [|done].
  by destruct H.
Qed.

Lemma userResult_skip pre e post :
  (Active e ≠ 2 ∧ Active e ≠ 0)
  ∨ (Active e = 0 ∧ ∃ o, loop pre (None, []) = Some (None, o)) →
  userResult Parse (pre ++ e :: post) = userResult Parse (pre ++ post).
Proof.
  intros H. unfold userResult. rewrite !activitiesLoop_app.
  destruct (loop pre (None, [])) as [st|]; [|done].
  cbn [mbind option_bind]. rewrite activitiesLoop_cons.
  rewrite activityStep_skip; [done|..].
  - destruct H as [[? _]|[-> _]]; done.
  - destruct H as [[_ ?]|[_ [o [= ->]]]]; [by left|by right].
Qed.

Lemma mapM_concat_skip (f : string → option (list Session)) k0 keys :
  f k0 = Some [] →
  (λ outs, concat outs) <$> mapM f (filter (λ k, k ≠ k0) keys)
  = (λ outs, concat outs) <$> mapM f keys.
Proof.
  intros Hk0. induction keys as [|k keys IH]; [done|].
  rewrite filter_cons. destruct (decide (k ≠ k0)) as [Hne|Heq].
  - simpl. destruct (f k) as [o|]; [|done]. simpl.
    destruct (mapM f keys) as [outs|], (mapM f (filter _ keys)) as [outs'|];
      simpl in *; simplify_eq; try done. by rewrite IH.
  - apply dec_stable in Heq as ->. simpl. rewrite Hk0. simpl.
    rewrite IH. by destruct (mapM f keys).
Qed.

Lemma filter_DisplayName_nil (l : list VoiceChannelUser) k :
  k ∉ DisplayName <$> l → filter (λ a, DisplayName a = k) l = [].
Proof.
  intros Hk. induction l as [|a l IH]; [done|].
  rewrite fmap_cons, not_elem_of_cons in Hk. destruct Hk as [Hne Hk].
  rewrite filter_cons_False by congruence. by apply IH.
Qed.

(** C9: an end signal that arrives while no session of its display name is
    open, and an event whose state is neither presence nor end, change
    nothing: the iteration leaves the state as it is, and dropping the event
    from the batch leaves the possible results of [processActivities]
    unchanged. *)
Theorem processActivities_skip before e after :
  (Active e ≠ 2 ∧ Active e ≠ 0)
  ∨ (Active e = 0
     ∧ ∃ o, loop (filter (λ a, DisplayName a = DisplayName e) before)
                 (None, []) = Some (None, o)) →
  (∀ st, Active e ≠ 0 ∨ st.1 = None → step st e = Some st)
  ∧ (∀ result,
       processActivitiesReturns Parse (before ++ e :: after) result
       ↔ processActivitiesReturns Parse (before ++ after) result).
Proof.
  intros H. split.
  { intros st Hst. apply activityStep_skip; [|done].
    destruct H as [[? _]|[-> _]]; done. }
  set (ke := DisplayName e).
  assert (∀ k, userResult Parse
                 (filter (λ a, DisplayName a = k) (before ++ e :: after))
               = userResult Parse
                   (filter (λ a, DisplayName a = k) (before ++ after))) as H1.
  { intros k. rewrite !filter_app, filter_cons.
    destruct (decide (DisplayName e = k)) as [<-|Hne]; [|done].
    by apply userResult_skip. }
  assert (∀ keys, processActivitiesIn Parse keys (before ++ e :: after)
                  = processActivitiesIn Parse keys (before ++ after)) as H2.
  { intros keys. rewrite !processActivitiesIn_concat.
    by rewrite (mapM_ext _ _ keys H1). }
  assert (∀ k, is_Some (groupActivities (before ++ e :: after) !! k)
               ↔ is_Some (groupActivities (before ++ after) !! k) ∨ k = ke)
    as H3.
  { intros k. rewrite !groupActivities_is_Some, !fmap_app, fmap_cons.
    rewrite !elem_of_app, elem_of_cons. fold ke.
    split; [intros [?|[?|?]]|intros [[?|?]|?]]; auto. }
  intros result.
  destruct (decide (ke ∈ DisplayName <$> before ++ after)) as [Hin|Hnin].
  - assert (∀ keys, rangeOrder (groupActivities (before ++ e :: after)) keys
                    ↔ rangeOrder (groupActivities (before ++ after)) keys)
      as Hord.
    { intros keys. unfold rangeOrder.
      assert (∀ k, is_Some (groupActivities (before ++ e :: after) !! k)
                   ↔ is_Some (groupActivities (before ++ after) !! k)) as E.
      { intros k. rewrite H3. split; [|by left].
        intros [?| ->]; [done|]. by apply groupActivities_is_Some. }
      split; intros [Hnd Hk]; (split; [done|]);
        intros k; rewrite Hk; [apply E|symmetry; apply E]. }
    split; intros (keys & Hk & ->); exists keys;
      (split; [by apply Hord|]); by rewrite H2.
  - assert (userResult Parse
              (filter (λ a, DisplayName a = ke) (before ++ after)) = Some [])
      as Hempty by (by rewrite filter_DisplayName_nil).
    assert (¬ is_Some (groupActivities (before ++ after) !! ke)) as Hnone
      by (by rewrite groupActivities_is_Some).
    split.
    + intros (keys & [Hnd Hk] & ->).
      exists (filter (λ k, k ≠ ke) keys). split.
      * split; [by apply NoDup_filter|].
        intros k. rewrite list_elem_of_filter, Hk, H3. split.
        -- intros [Hne [?|?]]; done.
        -- intros Hs. split; [|by left]. by intros ->.
      * rewrite H2, !processActivitiesIn_concat.
        by rewrite (mapM_concat_skip _ ke).
    + intros (keys & [Hnd Hk] & ->).
      exists (ke :: keys). split.
      * split.
        -- apply NoDup_cons. split; [|done]. by rewrite Hk.
        -- intros k. rewrite elem_of_cons, Hk, H3.
           split; intros [?|?]; auto.
      * rewrite H2, !processActivitiesIn_concat.
        cbn [mapM]. rewrite Hempty. simpl.
        by destruct (mapM _ keys).
Qed.

Lemma openedBy_snoc l e a s :
  openedBy Parse l a s → openedBy Parse (l ++ [e]) a s.
Proof.
  intros (pre & rest & o & -> & ? & ? & ? & ?).
  exists pre, (rest ++ [e]), o. by rewrite <- (assoc_L (++)).
Qed.

(** Every session a display name yields was opened by one of its presence
    signals, and so was the one still open. *)
Lemma activitiesLoop_openedBy l st :
  loop l (None, []) = Some st →
  (∀ c, st.1 = Some c → ∃ a, openedBy Parse l a c)
  ∧ Forall (λ s, ∃ a, openedBy Parse l a s) st.2.
Proof.
  revert st. induction l as [|e l IH] using rev_ind; intros st Hloop.
  { simpl in Hloop. simplify_eq. by split. }
  rewrite activitiesLoop_app in Hloop.
  destruct (loop l (None, [])) as [[cur out]|] eqn:Hl; [|done].
  cbn [mbind option_bind] in Hloop. rewrite activitiesLoop_cons in Hloop.
  destruct (step (cur, out) e) as [st1|] eqn:Hstep; [|done].
  simpl in Hloop. simplify_eq.
  destruct (IH _ eq_refl) as [Hcur Hout]. simpl in Hcur, Hout.
  assert (Forall (λ s, ∃ a, openedBy Parse (l ++ [e]) a s) out) as Hout'.
  { eapply Forall_impl; [exact Hout|].
    intros s [a Ha]. exists a. by apply openedBy_snoc. }
  destruct (activityStep_Some _ _ _ _ Hstep)
    as [(E & -> & c & u & _ & _ & ->)
       |[(_ & c0 & c & u & -> & _ & _ & ->)
       |[(_ & c0 & u & -> & _ & ->)|(_ & _ & ->)]]]; simpl.
  - split; [|done]. intros ? [= <-]. exists e, l, [], out. by rewrite Hl.
  - split; [|done]. intros ? [= <-].
    destruct (Hcur _ eq_refl) as [a Ha]. exists a.
    apply (openedBy_snoc _ e) in Ha.
    destruct Ha as (pre & rest & o & ? & ? & ? & ? & ?).
    by exists pre, rest, o.
  - split; [done|]. apply Forall_app. split; [done|].
    constructor; [|constructor].
    destruct (Hcur _ eq_refl) as [a Ha]. exists a.
    apply (openedBy_snoc _ e) in Ha.
    destruct Ha as (pre & rest & o & ? & ? & ? & ? & ?).
    by exists pre, rest, o.
  - split; [|done]. intros c Hc.
    destruct (Hcur _ Hc) as [a Ha]. exists a. by apply openedBy_snoc.
Qed.

Lemma userResult_openedBy l out :
  userResult Parse l = Some out → Forall (λ s, ∃ a, openedBy Parse l a s) out.
Proof.
  unfold userResult. intros Hres.
  destruct (loop l (None, [])) as [[cur o]|] eqn:Hloop; [|done].
  simpl in Hres. simplify_eq.
  destruct (activitiesLoop_openedBy _ _ Hloop) as [Hcur Hout].
  unfold appendOpen. simpl in *. destruct cur as [c|]; [|done].
  apply Forall_app. split; [done|]. constructor; [by apply Hcur|constructor].
Qed.

(** Every session of a result was opened by a presence signal of the batch,
    within the events that share its display name. *)
Lemma processActivities_openedBy activities result s :
  processActivitiesReturns Parse activities result → s ∈ result →
  ∃ a, a ∈ activities
       ∧ openedBy Parse
           (filter (λ b, DisplayName b = DisplayName a) activities) a s.
Proof.
  intros (keys & _ & ->). rewrite processActivitiesIn_concat.
  destruct (mapM _ keys) as [outs|] eqn:HM; simpl;
    [|by intros ?%elem_of_nil].
  apply mapM_Some in HM. intros Hin.
  induction HM as [|k out keys outs Hk _ IH]; [by apply elem_of_nil in Hin|].
  simpl in Hin. apply elem_of_app in Hin as [Hin|Hin]; [|by apply IH].
  apply userResult_openedBy in Hk.
  destruct (proj1 (Forall_forall _ _) Hk _ Hin) as [a Ha].
  exists a.
  assert (a ∈ filter (λ b, DisplayName b = k) activities) as Hmem.
  { destruct Ha as (pre & rest & o & -> & _).
    apply elem_of_app. right. by left. }
  apply list_elem_of_filter in Hmem as [<- Hmem]. done.
Qed.

End ReconstructorFacts.

(** ** Facts about the filter *)

Section FilterFacts.

Lemma containsSession_spec s t :
  containsSession s t = true ↔ strictlyContains t s.
Proof.
  unfold containsSession, strictlyContains.
  rewrite !andb_true_iff, String.eqb_eq, Before_lt, After_lt. tauto.
Qed.

Lemma isSubSession_spec l s :
  isSubSession l s = true ↔ ∃ t, t ∈ l ∧ strictlyContains t s.
Proof.
  unfold isSubSession. rewrite existsb_exists.
  split; intros (t & Hin & Ht); exists t;
    (split; [by apply list_elem_of_In|by apply containsSession_spec]).
Qed.

Lemma isSubSession_false l s :
  isSubSession l s = false ↔ ¬ ∃ t, t ∈ l ∧ strictlyContains t s.
Proof. rewrite <- isSubSession_spec. by destruct (isSubSession l s). Qed.

Lemma isSubSession_Permutation l l' s :
  l ≡ₚ l' → isSubSession l s = isSubSession l' s.
Proof.
  intros Hp. apply eq_true_iff_eq. rewrite !isSubSession_spec.
  by setoid_rewrite Hp.
Qed.

(** A session that strictly contains another one sorts before it. *)
Lemma strictlyContains_less t s : strictlyContains t s → less t s = true.
Proof.
  intros (Hn & Hs & _). unfold less.
  rewrite (proj2 (String.eqb_eq _ _) Hn). by apply Before_lt.
Qed.

Lemma sortedBy_cons a l :
  sortedBy less (a :: l) = true
  ↔ (∀ b, b ∈ l → less b a = false) ∧ sortedBy less l = true.
Proof.
  simpl. rewrite andb_true_iff, forallb_forall.
  split; intros [H ?]; (split; [|done]); intros b Hb.
  - apply list_elem_of_In, H in Hb. by apply negb_true_iff.
  - apply negb_true_iff, H. by apply list_elem_of_In.
Qed.

Lemma sortedBy_app_r l1 l2 :
  sortedBy less (l1 ++ l2) = true → sortedBy less l2 = true.
Proof.
  induction l1 as [|a l1 IH]; [done|].
  rewrite <- app_comm_cons, sortedBy_cons. intros [_ ?]. by apply IH.
Qed.

(** In a sorted slice the test against the earlier sessions decides
    containment in the whole slice. *)
Lemma isSubSession_sorted earlier current rest :
  sortedBy less (earlier ++ current :: rest) = true →
  isSubSession earlier current
  = isSubSession (earlier ++ current :: rest) current.
Proof.
  intros Hsorted. apply eq_true_iff_eq. rewrite !isSubSession_spec.
  split; intros (t & Hin & Ht); exists t; (split; [|done]).
  - apply elem_of_app. by left.
  - apply elem_of_app in Hin as [?|Hin]; [done|]. exfalso.
    apply strictlyContains_less in Ht as Hless.
    apply sortedBy_app_r, sortedBy_cons in Hsorted as [Hlater _].
    apply elem_of_cons in Hin as [->|Hin].
    + destruct Ht as (_ & ? & _). lia.
    + rewrite (Hlater _ Hin) in Hless. done.
Qed.

Lemma filterLoop_sorted earlier rest :
  sortedBy less (earlier ++ rest) = true →
  filterLoop earlier rest
  = filter (λ s, isSubSession (earlier ++ rest) s = false) rest.
Proof.
  revert earlier. induction rest as [|current rest IH]; intros earlier Hs; [done|].
  simpl. rewrite IH by (by rewrite <- (assoc_L (++))).
  rewrite <- (assoc_L (++)). simpl.
  rewrite filter_cons, <- (isSubSession_sorted _ _ _ Hs).
  by destruct (isSubSession earlier current).
Qed.

(** C4: whatever order [sort.Slice] leaves equal keys in, the filter keeps
    exactly the sessions of its input that no session of the input strictly
    contains: a strictly contained session is absent from the result, every
    other session, overlapped or not, is kept, as often as it occurs. *)
Theorem FilterSessions_exact sessions result :
  FilterSessionsReturns sessions result →
  (∀ s, s ∈ result
        ↔ s ∈ sessions ∧ ¬ ∃ t, t ∈ sessions ∧ strictlyContains t s)
  ∧ result ≡ₚ filter (λ s, isSubSession sessions s = false) sessions.
Proof.
  intros (sorted & [Hperm Hsorted] & ->).
  rewrite (filterLoop_sorted [] sorted Hsorted). simpl.
  assert (filter (λ s, isSubSession sorted s = false) sorted
          = filter (λ s, isSubSession sessions s = false) sorted) as ->.
  { apply list_filter_iff. intros s.
    by rewrite (isSubSession_Permutation _ _ s Hperm). }
  split.
  - intros s. rewrite list_elem_of_filter, isSubSession_false, Hperm. tauto.
  - by rewrite Hperm.
Qed.

(** *** The stable sort is one of the orders [sort.Slice] may produce *)

Lemma string_compare_refl s : String.compare s s = Eq.
Proof.
  induction s as [|c s IH]; [done|]. simpl.
  unfold Ascii.compare. by rewrite N.compare_refl.
Qed.

Lemma string_compare_lt_trans s1 s2 s3 :
  String.compare s1 s2 = Lt → String.compare s2 s3 = Lt →
  String.compare s1 s3 = Lt.
Proof.
  revert s2 s3. induction s1 as [|c1 s1 IH]; intros [|c2 s2] [|c3 s3];
    simpl; try done.
  unfold Ascii.compare.
  destruct (N.compare_spec (N_of_ascii c1) (N_of_ascii c2)) as [E12|L12|G12];
    destruct (N.compare_spec (N_of_ascii c2) (N_of_ascii c3)) as [E23|L23|G23];
    try done; intros H12 H23.
  - rewrite E12, E23, N.compare_refl. by eapply IH.
  - rewrite E12. by apply N.compare_lt_iff in L23 as ->.
  - rewrite <- E23. by apply N.compare_lt_iff in L12 as ->.
  - assert (N_of_ascii c1 < N_of_ascii c3)%N as L by lia.
    by apply N.compare_lt_iff in L as ->.
Qed.

Lemma notLess_spec a b :
  notLess a b
  ↔ String.compare (Name a) (Name b) = Lt
    ∨ (Name a = Name b
       ∧ unixNano (StartTime a) ≤ unixNano (StartTime b)).
Proof.
  unfold notLess, less.
  destruct (String.eqb_spec (Name b) (Name a)) as [E|N].
  - rewrite E, string_compare_refl. unfold Before. rewrite Z.ltb_ge.
    split; [by right|]. by intros [?|[_ ?]].
  - unfold String.ltb. rewrite (String.compare_antisym (Name a)).
    destruct (String.compare (Name b) (Name a)) eqn:C; simpl.
    + by apply String.compare_eq_iff in C.
    + split; [done|]. intros [?|[? _]]; congruence.
    + split; [by left|done].
Qed.

#[local] Instance notLess_trans : Transitive notLess.
Proof.
  intros a b c. rewrite !notLess_spec.
  intros [L1|[E1 H1]] [L2|[E2 H2]].
  - left. by eapply string_compare_lt_trans.
  - left. by rewrite <- E2.
  - left. by rewrite E1.
  - right. split; [congruence|lia].
Qed.

#[local] Instance notLess_total : Total notLess.
Proof.
  intros a b. rewrite !notLess_spec.
  destruct (String.compare (Name a) (Name b)) eqn:C.
  - apply String.compare_eq_iff in C.
    destruct (Z.le_ge_cases (unixNano (StartTime a)) (unixNano (StartTime b)));
      [left|right]; right; split; done || lia.
  - by left; left.
  - right; left. rewrite String.compare_antisym, C. done.
Qed.

Lemma StronglySorted_sortedBy l :
  StronglySorted notLess l → sortedBy less l = true.
Proof.
  induction 1 as [|a l _ IH Hall]; [done|].
  apply sortedBy_cons. split; [|done].
  intros b Hb. by apply (proj1 (Forall_forall _ _) Hall).
Qed.

Lemma FilterSessions_returns sessions :
  FilterSessionsReturns sessions (FilterSessions sessions).
Proof.
  exists (merge_sort notLess sessions). split; [|done]. split.
  - apply merge_sort_Permutation.
  - apply StronglySorted_sortedBy, StronglySorted_merge_sort; apply _.
Qed.

End FilterFacts.

(** ** Facts about the aggregation *)

Section AggregatorFacts.

Variable date : Time.

Local Abbreviation step := (totalTimeStep date).

Lemma window_width : unixNano (end5h date) - unixNano (start3h date) = 2 * Hour.
Proof.
  unfold end5h, start3h, Add. cbn [unixNano]. lia.
Qed.

Lemma Hour_pos : 0 < Hour.
Proof. done. Qed.

Lemma windowOverlap_bounds s : 0 ≤ windowOverlap date s ≤ 2 * Hour.
Proof.
  unfold windowOverlap. pose proof window_width. pose proof Hour_pos. lia.
Qed.

Lemma unixNano_effectiveStart (a b : Time) :
  unixNano (if Before a b then b else a) = Z.max (unixNano a) (unixNano b).
Proof. unfold Before. destruct (Z.ltb_spec (unixNano a) (unixNano b)); lia. Qed.

Lemma unixNano_effectiveEnd (a b : Time) :
  unixNano (if After a b then b else a) = Z.min (unixNano a) (unixNano b).
Proof. unfold After. destruct (Z.ltb_spec (unixNano b) (unixNano a)); lia. Qed.

Lemma Sub_exact t u :
  minDuration ≤ unixNano t - unixNano u ≤ maxDuration →
  Sub t u = unixNano t - unixNano u.
Proof.
  intros [Hlo Hhi]. unfold Sub.
  destruct (Z.ltb_spec (unixNano t - unixNano u) minDuration); [lia|].
  destruct (Z.ltb_spec maxDuration (unixNano t - unixNano u)); [lia|done].
Qed.

Lemma two_hours_fit : minDuration < 0 ∧ 2 * Hour < maxDuration.
Proof. by vm_compute. Qed.

Lemma onDate_test s :
  (Year (StartTime s) =? Year date) && (YearDay (StartTime s) =? YearDay date)
  = bool_decide (onDate date s).
Proof.
  unfold onDate.
  destruct (Z.eqb_spec (Year (StartTime s)) (Year date)),
           (Z.eqb_spec (YearDay (StartTime s)) (YearDay date)); simpl;
    [by rewrite bool_decide_eq_true_2|
     rewrite bool_decide_eq_false_2; [done|tauto]..].
Qed.

(** The loop body in one equation: a session that starts on the day and
    reaches into the window is recorded under its key, any other session
    leaves the map as it is. *)
Lemma totalTimeStep_spec m s :
  step m s
  = if decide (onDate date s ∧ 0 < windowOverlap date s) then
      <[userKey s :=
          match m !! userKey s with
          | Some r => SessionTime.mk (SessionTime.Name r) (SessionTime.GoogleID r)
                        (wrap64 (SessionTime.TotalTime r + windowOverlap date s))
                        (SessionTime.Date r)
          | None => SessionTime.mk (Name s) (GoogleID s)
                      (windowOverlap date s) (startOfDay date)
          end]> m
    else m.
Proof.
  unfold totalTimeStep. rewrite onDate_test.
  destruct (decide (onDate date s)) as [Hon|Hoff].
  2:{ rewrite bool_decide_eq_false_2 by done.
      rewrite decide_False; [done|tauto]. }
  rewrite bool_decide_eq_true_2 by done.
  set (es := if Before (StartTime s) (start3h date) then _ else _).
  set (ee := if After (EndTime s) (end5h date) then _ else _).
  assert (unixNano es = Z.max (unixNano (StartTime s)) (unixNano (start3h date)))
    as Hes by apply unixNano_effectiveStart.
  assert (unixNano ee = Z.min (unixNano (EndTime s)) (unixNano (end5h date)))
    as Hee by apply unixNano_effectiveEnd.
  pose proof window_width as Hw. pose proof two_hours_fit as [Hlo Hhi].
  unfold Before at 1.
  destruct (Z.ltb_spec (unixNano es) (unixNano ee)) as [Hlt|Hge].
  - assert (windowOverlap date s = unixNano ee - unixNano es) as Hov
      by (unfold windowOverlap; lia).
    rewrite decide_True by (split; [done|lia]).
    rewrite Sub_exact by lia. rewrite Hov. by destruct (m !! userKey s).
  - rewrite decide_False; [done|]. unfold windowOverlap. lia.
Qed.

Lemma CalculateTotalTimeForDate_snoc sessions s :
  CalculateTotalTimeForDate date (sessions ++ [s])
  = step (CalculateTotalTimeForDate date sessions) s.
Proof. unfold CalculateTotalTimeForDate. by rewrite foldl_app. Qed.

Lemma totalTimeStep_other m s k :
  k ≠ userKey s → step m s !! k = m !! k.
Proof.
  intros Hk. rewrite totalTimeStep_spec.
  case_decide; [|done]. by rewrite lookup_insert_ne.
Qed.

Lemma totalTimeStep_off m s : ¬ onDate date s → step m s = m.
Proof.
  intros Hoff. rewrite totalTimeStep_spec. rewrite decide_False; [done|tauto].
Qed.

(** *** [int64] arithmetic *)

Lemma wrap64_small z : minDuration ≤ z ≤ maxDuration → wrap64 z = z.
Proof.
  unfold minDuration, maxDuration, wrap64. intros ?.
  rewrite Z.mod_small; lia.
Qed.

Lemma wrap64_add_l a b : wrap64 (wrap64 a + b) = wrap64 (a + b).
Proof.
  unfold wrap64.
  replace ((a + 2 ^ 63) mod 2 ^ 64 - 2 ^ 63 + b + 2 ^ 63)
    with ((a + 2 ^ 63) mod 2 ^ 64 + b) by lia.
  rewrite Zplus_mod_idemp_l. do 2 f_equal. lia.
Qed.

Lemma wrap64_overlap s : wrap64 (windowOverlap date s) = windowOverlap date s.
Proof.
  apply wrap64_small. pose proof (windowOverlap_bounds s).
  pose proof two_hours_fit. lia.
Qed.

(** *** The totals *)

Lemma overlapSum_snoc k sessions s :
  overlapSum date k (sessions ++ [s])
  = overlapSum date k sessions
    + (if decide (userKey s = k ∧ onDate date s)
       then windowOverlap date s else 0).
Proof.
  unfold overlapSum. induction sessions as [|x l IH]; simpl.
  - case_decide; lia.
  - rewrite IH. repeat case_decide; lia.
Qed.

(** The total recorded under a key is the [int64] sum of what the sessions
    of that key that start on the day have inside the window. *)
Lemma CalculateTotalTimeForDate_total sessions k :
  totalOf (CalculateTotalTimeForDate date sessions) k
  = wrap64 (overlapSum date k sessions).
Proof.
  induction sessions as [|s l IH] using rev_ind; [done|].
  rewrite CalculateTotalTimeForDate_snoc, overlapSum_snoc.
  set (m := CalculateTotalTimeForDate date l) in *.
  destruct (decide (userKey s = k)) as [<-|Hne].
  2:{ unfold totalOf in *. rewrite totalTimeStep_other by done.
      rewrite decide_False by tauto. by rewrite Z.add_0_r. }
  rewrite totalTimeStep_spec.
  destruct (decide (onDate date s)) as [Hon|Hoff].
  2:{ rewrite !decide_False by tauto. by rewrite Z.add_0_r. }
  rewrite (decide_True (P := _ ∧ onDate date s)) by done.
  destruct (decide (0 < windowOverlap date s)) as [Hpos|Hzero].
  - rewrite decide_True by done.
    unfold totalOf in *. rewrite lookup_insert_eq.
    destruct (m !! userKey s) as [r|]; simpl in *.
    + by rewrite IH, wrap64_add_l.
    + by rewrite <- wrap64_add_l, <- IH, Z.add_0_l, wrap64_overlap.
  - rewrite decide_False by tauto.
    pose proof (windowOverlap_bounds s).
    replace (windowOverlap date s) with 0 by lia. by rewrite Z.add_0_r.
Qed.

Lemma totalOf_range sessions k :
  minDuration ≤ totalOf (CalculateTotalTimeForDate date sessions) k ≤ maxDuration.
Proof.
  rewrite CalculateTotalTimeForDate_total. unfold wrap64, minDuration, maxDuration.
  pose proof (Z.mod_pos_bound (overlapSum date k sessions + 2 ^ 63) (2 ^ 64)).
  lia.
Qed.

(** *** The records *)


End AggregatorFacts.

(** For timestamps that are carried in UTC the calendar day of the test is
    the UTC calendar day. *)
Lemma UTC_id t : zoneOffset t = 0 → UTC t = t.
Proof. destruct t as [n z]. simpl. by intros ->. Qed.

Lemma onDate_UTC date s :
  zoneOffset (StartTime s) = 0 → zoneOffset date = 0 →
  onDate date s ↔ onUTCDate date s.
Proof. intros Hs Hd. unfold onDate, onUTCDate. by rewrite !UTC_id. Qed.

(** The start of the day is midnight UTC of the day that holds the instant. *)
Lemma startOfDay_midnight date :
  unixNano (startOfDay date) = 24 * Hour * (unixNano date / (24 * Hour)).
Proof.
  unfold startOfDay, Truncate.
  change (24 * Hour <=? 0) with false. cbn [Add unixNano].
  replace (unixToInternal * Second) with (719162 * (24 * Hour)) by done.
  rewrite Z.mod_add by done.
  rewrite Z.mod_eq by done. ring.
Qed.

(** C5, in the form that holds: a session whose start, read in the location
    the timestamp carries, falls on the calendar day of the target date adds
    [max 0 (min end (midnight + 5h) - max start (midnight + 3h))] to the total
    recorded under its key, in [int64] arithmetic, and touches no other
    record; the session from 02:00 to 06:00 UTC on 2024-08-06 has exactly two
    hours recorded for that day. *)
Theorem CalculateTotalTimeForDate_clip :
  (∀ date done s,
     onDate date s →
     let before := totalOf (CalculateTotalTimeForDate date done) (userKey s) in
     let after :=
       totalOf (CalculateTotalTimeForDate date (done ++ [s])) (userKey s) in
     after = wrap64 (before + windowOverlap date s)
     ∧ (before + windowOverlap date s ≤ maxDuration →
        after = before + windowOverlap date s)
     ∧ ∀ k, k ≠ userKey s →
            CalculateTotalTimeForDate date (done ++ [s]) !! k
            = CalculateTotalTimeForDate date done !! k)
  ∧ (onDate august6 clipSession
     ∧ SessionTime.TotalTime
         <$> CalculateTotalTimeForDate august6 [clipSession] !! userKey clipSession
       = Some (2 * Hour)).
Proof.
  split; [|split; [split|]; by vm_compute].
  intros date done s Hon before after.
  assert (after = wrap64 (before + windowOverlap date s)) as Hwrap.
  { subst before after. rewrite !CalculateTotalTimeForDate_total.
    rewrite overlapSum_snoc, decide_True by done. by rewrite wrap64_add_l. }
  split; [done|]. split.
  - intros Hfit. rewrite Hwrap. apply wrap64_small.
    pose proof (totalOf_range date done (userKey s)).
    pose proof (windowOverlap_bounds date s). subst before. lia.
  - intros k Hk. rewrite CalculateTotalTimeForDate_snoc.
    by apply totalTimeStep_other.
Qed.

(** C6, in the form that holds: a session whose start, read in the location
    the timestamp carries, falls on another calendar day (year or day of the
    year) than the target date adds nothing, even when it reaches into the
    window; so the session from 2024-08-05 23:30 UTC to 2024-08-06 04:00 UTC
    adds nothing for 2024-08-06. *)
Theorem CalculateTotalTimeForDate_other_day :
  (∀ date done s,
     ¬ onDate date s →
     CalculateTotalTimeForDate date (done ++ [s])
     = CalculateTotalTimeForDate date done)
  ∧ (¬ onDate august6 boundarySession
     ∧ windowOverlap august6 boundarySession = Hour
     ∧ CalculateTotalTimeForDate august6 [boundarySession] = ∅).
Proof.
  split.
  - intros date done s Hoff. rewrite CalculateTotalTimeForDate_snoc.
    by apply totalTimeStep_off.
  - split; [|split; by vm_compute].
    intros [_ H]. by vm_compute in H.
Qed.

(** ** The claims on concrete inputs *)

(** C10: every session of a result bears the user id and the display name of
    the presence signal that opened it, a signal that arrived while no session
    of its display name was open; the events that widen or close the session
    leave both as they are, whatever user id they carry: the session a
    presence signal opens is the next one appended, or the one left open at
    the end, and it bears that signal's user id.  So in [sharedName] the
    presence of [u2] from 03:30 to 04:30 is recorded for [u1], who shares the
    display name. *)
Theorem session_userId_of_opener :
  (∀ Parse activities result s,
     processActivitiesReturns Parse activities result → s ∈ result →
     ∃ a, a ∈ activities
          ∧ openedBy Parse
              (filter (λ b, DisplayName b = DisplayName a) activities) a s)
  ∧ (∀ Parse a rest out st,
       Active a = 2 →
       activitiesLoop Parse (a :: rest) (None, out) = Some st →
       ∃ s tl, appendOpen st = out ++ s :: tl
               ∧ GoogleID s = UserID a ∧ Name s = DisplayName a)
  ∧ (UserID <$> sharedName = ["u1"; "u2"; "u2"]
     ∧ (∀ result,
          processActivitiesReturns ParseRFC3339 sharedName result
          ↔ result = [sharedSession])
     ∧ map_to_list
         (CalculateTotalTimeForDate august6
            (FilterSessions (processActivities ParseRFC3339 sharedName)))
       = [("aliceu1", SessionTime.mk "alice" "u1" (90 * Minute) august6)]).
Proof.
  split; [apply processActivities_openedBy|].
  split; [apply activitiesLoop_opener|].
  split; [done|]. split; [|by vm_compute].
  intros result.
  rewrite (processActivitiesReturns_one_name _ _ "alice");
    [|done|by repeat constructor].
  by vm_compute.
Qed.

(** The session of [sharedName] was opened by its first signal. *)
Lemma session_userId_of_opener_witness :
  ∃ a, a ∈ sharedName
       ∧ openedBy ParseRFC3339
           (filter (λ b, DisplayName b = DisplayName a) sharedName)
           a sharedSession.
Proof.
  apply (proj1 session_userId_of_opener ParseRFC3339 sharedName [sharedSession]).
  - apply (processActivitiesReturns_one_name _ _ "alice").
    + discriminate.
    + repeat constructor.
    + vm_compute. reflexivity.
  - left.
Defined.

(** Against C1 as the specification states it: a presence signal updated
    before it was created yields a session that ends before it starts. *)
Lemma processActivities_backwards :
  processActivitiesReturns ParseRFC3339 [backwardsEvent] [backwardsSession]
  ∧ ¬ closed backwardsSession.
Proof.
  split.
  - apply (processActivitiesReturns_one_name _ _ "alice");
      [done|by repeat constructor|by vm_compute].
  - intros H. vm_compute in H. by apply H.
Qed.

(** The ten-minute batch yields closed sessions. *)
Lemma processActivities_closed_witness :
  Forall closed (processActivities ParseRFC3339 tenMinutes).
Proof.
  apply (processActivities_closed ParseRFC3339 tenMinutes).
  - intros a c u Hin _ Hc Hu.
    repeat (apply elem_of_cons in Hin as [->|Hin]);
      [vm_compute in Hc, Hu; injection Hc as <-; injection Hu as <-;
       vm_compute; discriminate..|].
    by apply elem_of_nil in Hin.
  - apply processActivities_returns.
Defined.




(** The nested session is dropped, the overlapping one is kept. *)
Lemma FilterSessions_exact_witness :
  FilterSessionsReturns nestedInput nestedOutput
  ∧ (∀ s, s ∈ nestedOutput
          ↔ s ∈ nestedInput ∧ ¬ ∃ t, t ∈ nestedInput ∧ strictlyContains t s).
Proof.
  assert (FilterSessionsReturns nestedInput nestedOutput) as H.
  { exists [outerSession; nestedSession; overlappingSession; bobSession].
    split; [split|].
    - apply (bool_decide_unpack _). vm_compute. reflexivity.
    - vm_compute. reflexivity.
    - vm_compute. reflexivity. }
  split; [exact H|].
  exact (proj1 (FilterSessions_exact nestedInput nestedOutput H)).
Defined.

(** Against C5 as the specification states it: a session that starts at
    04:30 UTC on the target day, written five hours west of UTC, has half an
    hour inside the window and nothing is recorded for it. *)
Lemma CalculateTotalTimeForDate_west :
  onUTCDate august6 westSession
  ∧ windowOverlap august6 westSession = 30 * Minute
  ∧ CalculateTotalTimeForDate august6 [westSession] = ∅.
Proof. split; [split|split]; by vm_compute. Qed.

(** After a session that fills the window, [clipSession] brings the total of
    its key to four hours. *)
Lemma CalculateTotalTimeForDate_clip_witness :
  onDate august6 clipSession
  ∧ totalOf (CalculateTotalTimeForDate august6 ([outerSession] ++ [clipSession]))
            (userKey clipSession)
    = 4 * Hour.
Proof.
  assert (onDate august6 clipSession) as H by (split; vm_compute; reflexivity).
  split; [exact H|].
  destruct (proj1 CalculateTotalTimeForDate_clip august6 [outerSession]
                  clipSession H) as (-> & _).
  vm_compute. reflexivity.
Defined.

(** Against C6 as the specification states it: a session that starts at
    17:30 UTC on August 6, written seven hours east of UTC, is counted for
    August 7. *)
Lemma CalculateTotalTimeForDate_east :
  ¬ onUTCDate august7 eastSession
  ∧ SessionTime.TotalTime
      <$> CalculateTotalTimeForDate august7 [eastSession] !! userKey eastSession
    = Some Hour.
Proof.
  split; [|by vm_compute]. intros [_ H]. by vm_compute in H.
Qed.

(** [boundarySession] adds nothing to what [clipSession] has recorded. *)
Lemma CalculateTotalTimeForDate_other_day_witness :
  CalculateTotalTimeForDate august6 ([clipSession] ++ [boundarySession])
  = CalculateTotalTimeForDate august6 [clipSession].
Proof.
  apply (proj1 CalculateTotalTimeForDate_other_day august6 [clipSession]
               boundarySession).
  intros [_ H]. vm_compute in H. discriminate H.
Defined.

(** The second signal of the ten-minute batch moves the end to 10:05. *)
Lemma activityStep_widen_witness :
  activityStep ParseRFC3339
    (Some (mkSession "alice" "u1" (timeOf "2024-08-06T10:00:00Z")
                     (timeOf "2024-08-06T10:00:00Z")), [])
    secondSignal
  = Some (Some (mkSession "alice" "u1" (timeOf "2024-08-06T10:00:00Z")
                          (timeOf "2024-08-06T10:05:00Z")), []).
Proof.
  destruct (activityStep_widen ParseRFC3339
              (mkSession "alice" "u1" (timeOf "2024-08-06T10:00:00Z")
                         (timeOf "2024-08-06T10:00:00Z"))
              [] secondSignal
              (timeOf "2024-08-06T10:05:00Z") (timeOf "2024-08-06T10:05:00Z")
              [lateSignal])
    as (H & _).
  - reflexivity.
  - vm_compute. reflexivity.
  - vm_compute. reflexivity.
  - repeat constructor; vm_compute; eexists; reflexivity.
  - rewrite H. vm_compute. reflexivity.
Defined.

(** The first signal alone yields a session of no length. *)
Lemma processActivities_trailing_witness :
  processActivitiesReturns ParseRFC3339 [firstSignal]
    [mkSession "alice" "u1" (timeOf "2024-08-06T10:00:00Z")
               (timeOf "2024-08-06T10:00:00Z")].
Proof.
  destruct (processActivities_trailing ParseRFC3339 firstSignal
              (timeOf "2024-08-06T10:00:00Z") (timeOf "2024-08-06T10:00:00Z"))
    as [H _].
  - reflexivity.
  - vm_compute. reflexivity.
  - vm_compute. reflexivity.
  - apply H. reflexivity.
Defined.

(** A stray end signal of [bob] inside the ten-minute batch changes nothing. *)
Lemma processActivities_skip_witness :
  processActivitiesReturns ParseRFC3339
    ([firstSignal; secondSignal] ++ strayEnd :: [endSignal]) [tenMinuteSession].
Proof.
  destruct (processActivities_skip ParseRFC3339
              [firstSignal; secondSignal] strayEnd [endSignal]) as [_ H].
  - right. split; [reflexivity|]. exists []. vm_compute. reflexivity.
  - apply H.
    apply (processActivitiesReturns_one_name _ _ "alice").
    + discriminate.
    + repeat constructor.
    + vm_compute. reflexivity.
Defined.

(** ** Worked examples *)

Example parse_utc :
  ParseRFC3339 "2024-08-06T02:00:00Z" = Some (Add august6 (2 * Hour)).
Proof. reflexivity. Qed.

Example parse_offset :
  ParseRFC3339 "2024-08-07T00:30:00.5+07:00"
  = Some (mkTime (unixNano august6 + 17 * Hour + 30 * Minute + 500000000)
                 (7 * 3600)).
Proof. reflexivity. Qed.

Example parse_malformed :
  ParseRFC3339 "2024-13-06T02:00:00Z" = None
  ∧ ParseRFC3339 "2024-08-06 02:00:00Z" = None
  ∧ ParseRFC3339 "2023-02-29T02:00:00Z" = None
  ∧ ParseRFC3339 "" = None.
Proof. repeat split; reflexivity. Qed.

Example year_day :
  Year august6 = 2024 ∧ YearDay august6 = 219
  ∧ YearDay (DateUTC 2023 12 31) = 365 ∧ YearDay (DateUTC 2024 12 31) = 366
  ∧ Year (DateUTC 1970 1 1) = 1970 ∧ YearDay (DateUTC 2024 1 1) = 1.
Proof. repeat split; reflexivity. Qed.

(** The calendar day is read in the location of the timestamp. *)
Example year_day_location :
  YearDay (StartTime eastSession) = 220
  ∧ YearDay (UTC (StartTime eastSession)) = 219
  ∧ YearDay (StartTime westSession) = 218
  ∧ YearDay (UTC (StartTime westSession)) = 219.
Proof. repeat split; reflexivity. Qed.

Example startOfDay_any_time :
  startOfDay (Add august6 (13 * Hour + 47 * Minute)) = august6.
Proof. reflexivity. Qed.

(** The ten-minute scenario: one session, which the filter keeps; it lies
    outside the window from 03:00 to 05:00, so nothing is recorded. *)
Example tenMinutes_pipeline :
  processActivities ParseRFC3339 tenMinutes = [tenMinuteSession]
  ∧ FilterSessions [tenMinuteSession] = [tenMinuteSession]
  ∧ CalculateTotalTimeForDate august6 [tenMinuteSession] = ∅.
Proof. repeat split; by vm_compute. Qed.

Example nested_filtered : FilterSessions nestedInput = nestedOutput.
Proof. by vm_compute. Qed.

(** An event of another state and a stray end signal change nothing. *)
Example skipped_events :
  processActivities ParseRFC3339
    [strayEnd; firstSignal; secondSignal; otherState; endSignal]
  = [tenMinuteSession].
Proof. by vm_compute. Qed.

(** With several display names the result is abandoned as a whole. *)
Example brokenBatch_without_alice :
  processActivities ParseRFC3339 (take 2 brokenBatch)
  = [mkSession "bob" "u2" (timeOf "2024-08-06T03:00:00Z")
               (timeOf "2024-08-06T03:20:00Z")].
Proof. by vm_compute. Qed.

(** ** The rest of the program: facts *)

(** *** The calendar *)

(** Reading the year, month and day of a day number and counting the days
    back gives the day number. *)
Lemma daysFromCivil_inverse z :
  daysFromCivil (yearOfDays z) (monthOfDays z) (dayOfDays z) = z.
Proof.
  unfold yearOfDays, monthOfDays, dayOfDays, daysFromCivil.
  repeat match goal with
         | |- context [if ?x <=? ?y then _ else _] => destruct (Z.leb_spec x y)
         | |- context [if ?x <? ?y then _ else _] => destruct (Z.ltb_spec x y)
         end;
    Z.div_mod_to_equations; lia.
Qed.

Lemma monthOfDays_range z : 1 ≤ monthOfDays z ≤ 12.
Proof.
  unfold monthOfDays.
  match goal with
  | |- context [if ?x <? ?y then _ else _] => destruct (Z.ltb_spec x y)
  end; Z.div_mod_to_equations; lia.
Qed.

Lemma localDays_DateUTC y m d : localDays (DateUTC y m d) = daysFromCivil y m d.
Proof.
  unfold localDays, DateUTC. cbn [unixNano zoneOffset].
  rewrite Z.mul_0_l, Z.add_0_r. by apply Z.div_mul.
Qed.

Lemma unixNano_DateUTC_day y m d : unixNano (DateUTC y m d) mod (24 * Hour) = 0.
Proof. unfold DateUTC. cbn [unixNano]. by apply Z.mod_mul. Qed.

(** Rebuilding a date from its year, month and day gives midnight UTC of the
    calendar day the date falls on in its own location. *)
Lemma DateUTC_rebuild t :
  DateUTC (Year t) (Month t) (Day t) = mkTime (localDays t * (24 * Hour)) 0.
Proof.
  unfold DateUTC, Year, Month, Day. by rewrite daysFromCivil_inverse.
Qed.

Lemma DateUTC_rebuild_id y m d :
  DateUTC (Year (DateUTC y m d)) (Month (DateUTC y m d)) (Day (DateUTC y m d))
  = DateUTC y m d.
Proof. by rewrite DateUTC_rebuild, localDays_DateUTC. Qed.

Lemma startOfDay_midnight_UTC t :
  zoneOffset t = 0 → unixNano t mod (24 * Hour) = 0 → startOfDay t = t.
Proof.
  intros Hz Hm. destruct t as [n z]. simpl in *. subst z.
  unfold startOfDay, Truncate. change (24 * Hour <=? 0) with false.
  unfold Add. cbn [unixNano zoneOffset]. f_equal.
  replace (unixToInternal * Second) with (719162 * (24 * Hour)) by done.
  rewrite Z.mod_add by done. lia.
Qed.

(** *** The parsers consume what they read *)

Lemma readDigits_length n acc s v rest :
  readDigits n acc s = Some (v, rest) →
  String.length s = (n + String.length rest)%nat.
Proof.
  revert acc s. induction n as [|n IH]; intros acc s H; simpl in H.
  - by simplify_eq.
  - destruct s as [|c s]; [done|]. destruct (digit c) as [d|]; [|done].
    simpl in H. apply IH in H. simpl. by rewrite H.
Qed.

Lemma parseUint_length n lo hi s v rest :
  parseUint n lo hi s = Some (v, rest) →
  String.length s = (n + String.length rest)%nat.
Proof.
  unfold parseUint. intros H.
  destruct (readDigits n 0 s) as [[v' rest']|] eqn:E; [|done]. simpl in H.
  destruct ((lo <=? v') && (v' <=? hi)); [|done]. simplify_eq.
  by eapply readDigits_length.
Qed.

Lemma parseUint_range n lo hi s v rest :
  parseUint n lo hi s = Some (v, rest) → lo ≤ v ≤ hi.
Proof.
  unfold parseUint. intros H.
  destruct (readDigits n 0 s) as [[v' rest']|]; [|done]. simpl in H.
  destruct ((lo <=? v') && (v' <=? hi)) eqn:E; [|done]. simplify_eq.
  apply andb_true_iff in E as [?%Z.leb_le ?%Z.leb_le]. done.
Qed.

Lemma expect_length c s rest :
  expect c s = Some rest → String.length s = S (String.length rest).
Proof.
  destruct s as [|c' s]; [done|]. simpl.
  destruct (Ascii.eqb c c'); [|done]. by intros [= ->].
Qed.

Lemma ParseSlashDate_Some s t :
  ParseSlashDate s = Some t →
  String.length s = 10%nat
  ∧ ∃ y m d, t = DateUTC y m d
             ∧ 0 ≤ y ≤ 9999 ∧ 1 ≤ m ≤ 12 ∧ 1 ≤ d ≤ daysIn m y.
Proof.
  unfold ParseSlashDate. intros H.
  destruct (parseUint 4 0 9999 s) as [[y s1]|] eqn:E1; [|done]. simpl in H.
  destruct (expect "/" s1) as [s2|] eqn:E2; [|done]. simpl in H.
  destruct (parseUint 2 1 12 s2) as [[m s3]|] eqn:E3; [|done]. simpl in H.
  destruct (expect "/" s3) as [s4|] eqn:E4; [|done]. simpl in H.
  destruct (parseUint 2 1 (daysIn m y) s4) as [[d s5]|] eqn:E5; [|done].
  simpl in H. destruct s5; [|done]. simplify_eq.
  split.
  - apply parseUint_length in E1, E3, E5. apply expect_length in E2, E4.
    simpl in *. lia.
  - exists y, m, d. apply parseUint_range in E1, E3, E5. done.
Qed.

(** X1: [parseCustomDateFormat]: a date it returns is the date the first parse
    returned (rebuilding it changes nothing), read from exactly ten
    characters; it is a midnight in UTC, which the truncation to the day and
    the bounds of the query leave as it is. *)
Theorem parseCustomDateFormat_midnight dateStr date :
  parseCustomDateFormat dateStr = Some date →
  ParseSlashDate dateStr = Some date
  ∧ String.length dateStr = 10%nat
  ∧ zoneOffset date = 0
  ∧ unixNano date mod (24 * Hour) = 0
  ∧ startOfDay date = date
  ∧ FetchActivities.startOfDay date = date.
Proof.
  unfold parseCustomDateFormat. intros H.
  destruct (ParseSlashDate dateStr) as [p|] eqn:Hp; [|done].
  simpl in H. injection H as <-.
  destruct (ParseSlashDate_Some _ _ Hp) as (Hlen & y & m & d & -> & _).
  rewrite DateUTC_rebuild_id.
  split; [done|]. split; [done|]. split; [done|].
  split; [apply unixNano_DateUTC_day|].
  split.
  - apply startOfDay_midnight_UTC; [done|apply unixNano_DateUTC_day].
  - unfold FetchActivities.startOfDay. apply DateUTC_rebuild_id.
Qed.

(** The time parameter [2024/08/06] is August 6 at midnight UTC. *)
Lemma parseCustomDateFormat_midnight_witness :
  ParseSlashDate "2024/08/06" = Some august6 ∧ startOfDay august6 = august6.
Proof.
  destruct (parseCustomDateFormat_midnight "2024/08/06" august6)
    as (H1 & _ & _ & _ & H2 & _).
  - vm_compute. reflexivity.
  - split; [exact H1|exact H2].
Defined.

(** X2: [FetchActivities]: for a date carried in UTC the query runs from the
    midnight that [CalculateTotalTimeForDate] truncates the date to, to one
    second before the next midnight; it holds the window from 03:00 to 05:00,
    and every instant in it, read in UTC, passes the day test of the
    aggregation. *)
Theorem FetchActivities_bounds date :
  zoneOffset date = 0 →
  FetchActivities.startOfDay date = startOfDay date
  ∧ unixNano (FetchActivities.endOfDay date)
    = unixNano (startOfDay date) + 24 * Hour - Second
  ∧ unixNano (FetchActivities.startOfDay date) ≤ unixNano (start3h date)
  ∧ unixNano (end5h date) ≤ unixNano (FetchActivities.endOfDay date)
  ∧ ∀ t, zoneOffset t = 0 →
         unixNano (FetchActivities.startOfDay date) ≤ unixNano t
         ≤ unixNano (FetchActivities.endOfDay date) →
         Year t = Year date ∧ YearDay t = YearDay date.
Proof.
  intros Hz.
  assert (FetchActivities.startOfDay date = startOfDay date) as Hstart.
  { unfold FetchActivities.startOfDay. rewrite DateUTC_rebuild.
    destruct date as [n z]. simpl in Hz. subst z.
    unfold startOfDay, Truncate, localDays, Add.
    change (24 * Hour <=? 0) with false. cbn [unixNano zoneOffset]. f_equal.
    replace (unixToInternal * Second) with (719162 * (24 * Hour)) by done.
    rewrite Z.mod_add by done. rewrite Z.mul_0_l, Z.add_0_r.
    rewrite Z.mod_eq by done. lia. }
  split; [done|].
  assert (unixNano (FetchActivities.endOfDay date)
          = unixNano (startOfDay date) + 24 * Hour - Second) as Hend.
  { unfold FetchActivities.endOfDay. rewrite Hstart. unfold Add.
    cbn [unixNano]. lia. }
  split; [done|]. rewrite Hend, Hstart.
  unfold start3h, end5h, Add. cbn [unixNano].
  assert (0 < Second < Hour) as HS by done.
  split; [lia|]. split; [lia|].
  intros t Ht [Hlo Hhi].
  assert (localDays t = localDays date) as Hdays.
  { unfold localDays. rewrite Ht, Hz, !Z.mul_0_l, !Z.add_0_r.
    rewrite startOfDay_midnight in Hlo, Hhi.
    assert (0 < 24 * Hour) as Hd by done.
    pose proof (Z.mul_div_le (unixNano date) (24 * Hour) Hd).
    symmetry.
    apply (Z.div_unique_pos
             _ _ _ (unixNano t - 24 * Hour * (unixNano date / (24 * Hour))));
      lia. }
  unfold YearDay, Year. by rewrite Hdays.
Qed.

(** The last second of August 6 passes the day test for any time of
    August 6. *)
Lemma FetchActivities_bounds_witness :
  Year (timeOf "2024-08-06T23:59:59Z") = Year (timeOf "2024-08-06T13:47:00Z")
  ∧ YearDay (timeOf "2024-08-06T23:59:59Z")
    = YearDay (timeOf "2024-08-06T13:47:00Z").
Proof.
  destruct (FetchActivities_bounds (timeOf "2024-08-06T13:47:00Z"))
    as (_ & _ & _ & _ & H).
  - reflexivity.
  - apply H; [reflexivity|]. vm_compute. split; discriminate.
Defined.

(** *** Sorting *)

Lemma sliceSorted_StronglySorted {A} (lt : A → A → bool) l :
  sliceSorted lt l = true ↔ StronglySorted (λ a b, lt b a = false) l.
Proof.
  induction l as [|a l IH]; simpl.
  - split; [constructor|done].
  - rewrite andb_true_iff, forallb_forall, IH, StronglySorted_cons, Forall_forall.
    split; intros [H ?]; (split; [|done]); intros b Hb.
    + apply negb_true_iff, H. by apply list_elem_of_In.
    + apply negb_true_iff, H. by apply list_elem_of_In.
Qed.

Lemma StronglySorted_filter {A} (R : relation A) (P : A → Prop)
      `{∀ x, Decision (P x)} l :
  StronglySorted R l → StronglySorted R (filter P l).
Proof.
  induction 1 as [|a l _ IH Hall]; [constructor|].
  rewrite filter_cons. destruct (decide (P a)); [|done].
  constructor; [done|]. apply Forall_forall. intros b [_ Hb]%list_elem_of_filter.
  by apply (proj1 (Forall_forall _ _) Hall).
Qed.

Lemma StronglySorted_weaken {A} (R R' : relation A) l :
  (∀ a b, a ∈ l → b ∈ l → R a b → R' a b) →
  StronglySorted R l → StronglySorted R' l.
Proof.
  intros HR Hl. induction Hl as [|a l _ IH Hall]; [constructor|].
  constructor.
  - apply IH. intros x y ??. apply HR; by right.
  - apply Forall_forall. intros b Hb. apply HR; [by left|by right|].
    by apply (proj1 (Forall_forall _ _) Hall).
Qed.

Lemma NoDup_fmap_inj_on {A B} (f : A → B) (l : list A) x y :
  NoDup (f <$> l) → x ∈ l → y ∈ l → f x = f y → x = y.
Proof.
  induction l as [|a l IH]; [by intros _ ?%elem_of_nil|].
  rewrite fmap_cons, NoDup_cons.
  intros [Hnotin Hnd] [->|Hx]%elem_of_cons [->|Hy]%elem_of_cons Hf; [done|..].
  - exfalso. apply Hnotin. rewrite Hf. by apply list_elem_of_fmap_2.
  - exfalso. apply Hnotin. rewrite <- Hf. by apply list_elem_of_fmap_2.
  - by apply IH.
Qed.

Section SortingFacts.

Variable Parse : string → option Time.

Local Abbreviation inst := (λ a, unixNano (createTimeOrZero Parse a)).

Lemma activityNotLess_spec a b :
  activityNotLess Parse a b
  ↔ String.compare (DisplayName a) (DisplayName b) = Lt
    ∨ (DisplayName a = DisplayName b ∧ inst a ≤ inst b).
Proof.
  unfold activityNotLess, activityLess.
  destruct (String.eqb_spec (DisplayName b) (DisplayName a)) as [E|N].
  - rewrite E, string_compare_refl. unfold Before. rewrite Z.ltb_ge.
    split; [by right|]. by intros [?|[_ ?]].
  - unfold String.ltb. rewrite (String.compare_antisym (DisplayName a)).
    destruct (String.compare (DisplayName b) (DisplayName a)) eqn:C; simpl.
    + by apply String.compare_eq_iff in C.
    + split; [done|]. intros [?|[? _]]; congruence.
    + split; [by left|done].
Qed.

#[local] Instance activityNotLess_trans : Transitive (activityNotLess Parse).
Proof.
  intros a b c. rewrite !activityNotLess_spec.
  intros [L1|[E1 H1]] [L2|[E2 H2]].
  - left. by eapply string_compare_lt_trans.
  - left. by rewrite <- E2.
  - left. by rewrite E1.
  - right. split; [congruence|lia].
Qed.

#[local] Instance activityNotLess_total : Total (activityNotLess Parse).
Proof.
  intros a b. rewrite !activityNotLess_spec.
  destruct (String.compare (DisplayName a) (DisplayName b)) eqn:C.
  - apply String.compare_eq_iff in C.
    destruct (Z.le_ge_cases (inst a) (inst b));
      [left|right]; right; split; done || lia.
  - by left; left.
  - right; left. rewrite String.compare_antisym, C. done.
Qed.

(** The stable sort is one of the orders [sort.Slice] may produce. *)
Lemma SortActivities_returns activities :
  SortActivitiesReturns Parse activities (SortActivities Parse activities).
Proof.
  split; [apply merge_sort_Permutation|].
  apply sliceSorted_StronglySorted, StronglySorted_merge_sort; apply _.
Qed.

(** After the sort the events of one display name are in creation order. *)
Lemma sorted_partition sorted k :
  sliceSorted (activityLess Parse) sorted = true →
  StronglySorted (λ a b, inst a ≤ inst b)
                 (filter (λ a, DisplayName a = k) sorted).
Proof.
  intros Hs%sliceSorted_StronglySorted.
  eapply StronglySorted_weaken; [|by apply StronglySorted_filter].
  intros a b [Ha _]%list_elem_of_filter [Hb _]%list_elem_of_filter.
  intros [L|[_ ?]]%activityNotLess_spec; [|done].
  rewrite Ha, Hb, string_compare_refl in L. done.
Qed.

(** X3: [SortActivities] and the grouping of [processActivities]: whatever the
    arrival order and whatever order the sort leaves equal keys in, the events
    the reconstruction reads under a display name are the events of that name,
    each once, in the order of their creation times (the zero time standing
    for a creation time that does not parse). *)
Theorem SortActivities_groups activities sorted k :
  SortActivitiesReturns Parse activities sorted →
  default [] (groupActivities sorted !! k)
  ≡ₚ filter (λ a, DisplayName a = k) activities
  ∧ StronglySorted
      (λ a b, unixNano (createTimeOrZero Parse a)
              ≤ unixNano (createTimeOrZero Parse b))
      (default [] (groupActivities sorted !! k)).
Proof.
  intros [Hperm Hsorted]. rewrite groupActivities_lookup. split.
  - by rewrite Hperm.
  - by apply sorted_partition.
Qed.

Lemma sorted_unique activities activities' sorted sorted' :
  NoDup (sortKey Parse <$> activities) → activities' ≡ₚ activities →
  SortActivitiesReturns Parse activities sorted →
  SortActivitiesReturns Parse activities' sorted' →
  sorted = sorted'.
Proof.
  intros Hnd Hp [Hp1 Hs1] [Hp2 Hs2].
  apply sliceSorted_StronglySorted in Hs1, Hs2.
  eapply (StronglySorted_unique_strong (activityNotLess Parse));
    [|exact Hs1|exact Hs2|by rewrite Hp1, Hp2, Hp].
  intros x1 x2 Hx1 Hx2 H12 H21.
  rewrite Hp1 in Hx1. rewrite Hp2, Hp in Hx2.
  apply (NoDup_fmap_inj_on (sortKey Parse) activities); [done..|].
  apply activityNotLess_spec in H12, H21. unfold sortKey.
  destruct H12 as [L12|[E12 I12]], H21 as [L21|[E21 I21]].
  - rewrite String.compare_antisym, L21 in L12. done.
  - rewrite E21, string_compare_refl in L12. done.
  - rewrite E12, string_compare_refl in L21. done.
  - f_equal; [done|lia].
Qed.

(** X4: [SortActivities] erases the arrival order: when no two events share
    both display name and creation instant, every order the rows may arrive in
    and every way the sort may run leave the same slice, the one the stable
    sort gives. *)
Theorem SortActivities_deterministic activities activities' sorted' :
  NoDup (sortKey Parse <$> activities) → activities' ≡ₚ activities →
  SortActivitiesReturns Parse activities' sorted' →
  sorted' = SortActivities Parse activities.
Proof.
  intros Hnd Hp Hs. symmetry.
  eapply sorted_unique; [done|done|apply SortActivities_returns|done].
Qed.

End SortingFacts.

(** *** More about the reconstruction *)

Section ReconstructorMore.

Variable Parse : string → option Time.

Local Abbreviation step := (activityStep Parse).
Local Abbreviation loop := (activitiesLoop Parse).

Lemma rangeOrder_Permutation {V} (m : gmap string V) keys keys' :
  rangeOrder m keys → rangeOrder m keys' → keys ≡ₚ keys'.
Proof.
  intros [Hnd Hk] [Hnd' Hk']. apply NoDup_Permutation; [done..|].
  intros k. by rewrite Hk, Hk'.
Qed.

(** Visiting the display names in another order rearranges the result, and
    the run is abandoned in one order exactly when it is in the other. *)
Lemma mapM_concat_Permutation (f : string → option (list Session)) keys keys' :
  keys ≡ₚ keys' →
  option_Forall2 (≡ₚ) ((λ outs, concat outs) <$> mapM f keys)
                 ((λ outs, concat outs) <$> mapM f keys').
Proof.
  induction 1 as [|k l l' _ IH|k1 k2 l|l1 l2 l3 _ IH1 _ IH2].
  - simpl. by constructor.
  - simpl. destruct (f k) as [o|]; simpl; [|constructor].
    destruct (mapM f l) as [outs|], (mapM f l') as [outs'|];
      simpl in *; inversion IH; subst; constructor.
    by apply Permutation_app_head.
  - simpl. destruct (f k1) as [o1|], (f k2) as [o2|]; simpl; try constructor.
    destruct (mapM f l) as [outs|]; simpl; constructor.
    rewrite !(assoc_L (++)). apply Permutation_app_tail, Permutation_app_comm.
  - destruct ((λ outs, concat outs) <$> mapM f l1),
             ((λ outs, concat outs) <$> mapM f l2),
             ((λ outs, concat outs) <$> mapM f l3);
      inversion IH1; inversion IH2; subst; constructor. by etrans.
Qed.

Lemma processActivitiesReturns_Permutation activities result result' :
  processActivitiesReturns Parse activities result →
  processActivitiesReturns Parse activities result' →
  result ≡ₚ result'.
Proof.
  intros (keys & Hk & ->) (keys' & Hk' & ->).
  rewrite !processActivitiesIn_concat.
  pose proof (mapM_concat_Permutation
                (λ k, userResult Parse
                        (filter (λ a, DisplayName a = k) activities))
                keys keys' (rangeOrder_Permutation _ _ _ Hk Hk')) as H.
  inversion H; simpl; done.
Qed.

(** X5: [processActivities]: the order in which the map is iterated only
    rearranges the result; any two results of a batch hold the same sessions,
    each as often. *)
Theorem processActivities_order_independent activities result result' :
  processActivitiesReturns Parse activities result →
  processActivitiesReturns Parse activities result' →
  result ≡ₚ result'.
Proof. apply processActivitiesReturns_Permutation. Qed.

(** **** No more sessions than presence signals *)

Lemma activitiesLoop_length l cur out st :
  loop l (cur, out) = Some st →
  (length (appendOpen st)
   ≤ length out + (if cur is Some _ then 1 else 0) + presenceSignals l)%nat.
Proof.
  revert cur out. induction l as [|e l IH]; intros cur out Hloop.
  - simpl in Hloop. simplify_eq. unfold appendOpen, presenceSignals. simpl.
    destruct cur; rewrite ?length_app; simpl; lia.
  - rewrite activitiesLoop_cons in Hloop.
    destruct (step (cur, out) e) as [st1|] eqn:Hstep; [|done].
    simpl in Hloop. unfold presenceSignals in *. rewrite filter_cons.
    destruct (activityStep_Some Parse _ _ _ _ Hstep)
      as [(E & -> & c & u & _ & _ & ->)
         |[(E & c0 & c & u & -> & _ & _ & ->)
         |[(E & c0 & u & -> & _ & ->)|(E & _ & ->)]]];
      apply IH in Hloop; rewrite ?length_app in Hloop; simpl in Hloop;
      destruct (decide (Active e = 2)); simpl; lia.
Qed.

Lemma userResult_length l out :
  userResult Parse l = Some out → (length out ≤ presenceSignals l)%nat.
Proof.
  unfold userResult. intros H.
  destruct (loop l (None, [])) as [st|] eqn:Hloop; [|done].
  simpl in H. simplify_eq. apply activitiesLoop_length in Hloop.
  simpl in Hloop. lia.
Qed.

Lemma presenceSignals_split (activities : list VoiceChannelUser) k keys :
  k ∉ keys →
  presenceSignals (filter (λ a, DisplayName a ∈ k :: keys) activities)
  = (presenceSignals (filter (λ a, DisplayName a = k) activities)
     + presenceSignals (filter (λ a, DisplayName a ∈ keys) activities))%nat.
Proof.
  intros Hk. unfold presenceSignals.
  induction activities as [|a l IH]; [done|].
  rewrite !(filter_cons _ a).
  destruct (decide (DisplayName a = k)) as [E|N].
  - rewrite decide_True by (rewrite E; by left).
    rewrite (decide_False (P := DisplayName a ∈ keys)) by (by rewrite E).
    rewrite !(filter_cons _ a).
    destruct (decide (Active a = 2)); simpl; lia.
  - destruct (decide (DisplayName a ∈ keys)) as [Hin|Hnin].
    + rewrite decide_True by (by right). rewrite !(filter_cons _ a).
      destruct (decide (Active a = 2)); simpl; lia.
    + rewrite decide_False; [done|]. by intros [?|?]%elem_of_cons.
Qed.

Lemma presenceSignals_filter (P : VoiceChannelUser → Prop)
      `{∀ a, Decision (P a)} activities :
  (presenceSignals (filter P activities) ≤ presenceSignals activities)%nat.
Proof.
  unfold presenceSignals. induction activities as [|a l IH]; [done|].
  rewrite !(filter_cons _ a). destruct (decide (P a)).
  - rewrite !(filter_cons _ a). destruct (decide (Active a = 2)); simpl; lia.
  - destruct (decide (Active a = 2)); simpl; lia.
Qed.

(** X6: [processActivities]: a result never holds more sessions than the batch
    holds presence signals; end signals and other events add none. *)
Theorem processActivities_length activities result :
  processActivitiesReturns Parse activities result →
  (length result ≤ presenceSignals activities)%nat.
Proof.
  intros (keys & [Hnd _] & ->). rewrite processActivitiesIn_concat.
  destruct (mapM _ keys) as [outs|] eqn:HM; simpl; [|lia].
  apply mapM_Some in HM.
  etrans; [|apply (presenceSignals_filter (λ a, DisplayName a ∈ keys))].
  induction HM as [|k out keys outs Hk _ IH]; [simpl; lia|].
  apply NoDup_cons in Hnd as [Hnotin Hnd].
  rewrite presenceSignals_split by done. simpl. rewrite length_app.
  apply userResult_length in Hk. specialize (IH Hnd). lia.
Qed.

(** **** Where the bounds of a session come from *)

Lemma minTime_cases a b : minTime a b = a ∨ minTime a b = b.
Proof. unfold minTime. destruct (Before a b); auto. Qed.

Lemma maxTime_cases a b : maxTime a b = a ∨ maxTime a b = b.
Proof. unfold maxTime. destruct (After a b); auto. Qed.

Lemma userResult_boundsFrom l out :
  userResult Parse l = Some out → Forall (boundsFrom Parse l) out.
Proof.
  unfold userResult. intros Hres.
  destruct (loop l (None, [])) as [st|] eqn:Hloop; [|done].
  simpl in Hres. simplify_eq.
  assert ((∀ c, st.1 = Some c → boundsFrom Parse l c)
          ∧ Forall (boundsFrom Parse l) st.2) as [Hcur Hout].
  { apply (activitiesLoop_invariant Parse
             (λ st, (∀ c, st.1 = Some c → boundsFrom Parse l c)
                    ∧ Forall (boundsFrom Parse l) st.2)
             l) with (st := (None, [])); [|by split|exact Hloop].
    clear Hloop st. intros [cur out] e [cur' out'] Hin [Hcur Hout] Hstep.
    simpl in *.
    destruct (activityStep_Some Parse _ _ _ _ Hstep)
      as [(E & -> & c & u & Hc & Hu & ?)
         |[(E & s & c & u & -> & Hc & Hu & ?)
         |[(E & s & u & -> & Hu & ?)|(_ & _ & ?)]]]; simplify_eq; simpl.
    - split; [|done]. intros ? [= <-]. split; exists e; simpl; auto.
    - split; [|done]. intros ? [= <-].
      destruct (Hcur _ eq_refl) as [(a & ? & ? & ?) (b & ? & ? & ?)].
      split; simpl.
      + destruct (minTime_cases (StartTime s) c) as [-> | ->];
          [by exists a|by exists e].
      + destruct (maxTime_cases (EndTime s) u) as [-> | ->];
          [by exists b|exists e; auto].
    - split; [done|]. apply Forall_app. split; [done|].
      constructor; [|constructor].
      destruct (Hcur _ eq_refl) as [(a & ? & ? & ?) (b & ? & ? & ?)].
      split; simpl; [by exists a|].
      destruct (maxTime_cases (EndTime s) u) as [-> | ->];
        [by exists b|exists e; auto].
    - done. }
  unfold appendOpen. destruct st as [[c|] out]; simpl in *; [|done].
  apply Forall_app. split; [done|]. constructor; [by apply Hcur|constructor].
Qed.

(** X7: [processActivities]: the bounds of every session are timestamps of
    events of its display name, as they were parsed: its start is the creation
    time of a presence signal, its end the update time of a presence or end
    signal. No bound is made up or taken from another name. *)
Theorem processActivities_bounds activities result s :
  processActivitiesReturns Parse activities result → s ∈ result →
  boundsFrom Parse (filter (λ a, DisplayName a = Name s) activities) s.
Proof.
  intros (keys & _ & ->). rewrite processActivitiesIn_concat.
  destruct (mapM _ keys) as [outs|] eqn:HM; simpl;
    [|by intros ?%elem_of_nil].
  apply mapM_Some in HM. intros Hin.
  induction HM as [|k out keys outs Hk _ IH]; [by apply elem_of_nil in Hin|].
  simpl in Hin. apply elem_of_app in Hin as [Hin|Hin]; [|by apply IH].
  assert (Name s = k) as ->.
  { apply (userResult_Name Parse) with (k := k) in Hk as Hn.
    - by apply (proj1 (Forall_forall _ _) Hn).
    - apply Forall_forall. by intros a [? _]%list_elem_of_filter. }
  apply userResult_boundsFrom in Hk.
  by apply (proj1 (Forall_forall _ _) Hk).
Qed.

(** **** With sorted events the start of a session stays where it opened *)




End ReconstructorMore.

(** *** More about the filter *)

Lemma FilterSessionsReturns_filter sessions result :
  FilterSessionsReturns sessions result →
  ∃ sorted, sortSlice sessions sorted
            ∧ result = filter (λ s, isSubSession sessions s = false) sorted.
Proof.
  intros (sorted & [Hperm Hsorted] & ->). exists sorted. split; [done|].
  rewrite (filterLoop_sorted [] sorted Hsorted). simpl.
  apply list_filter_iff. intros s.
  by rewrite (isSubSession_Permutation _ _ s Hperm).
Qed.

Lemma sortedBy_filter (P : Session → Prop) `{∀ s, Decision (P s)} l :
  sortedBy less l = true → sortedBy less (filter P l) = true.
Proof.
  induction l as [|a l IH]; [done|].
  rewrite sortedBy_cons. intros [Ha Hl]. rewrite filter_cons.
  destruct (decide (P a)); [|by apply IH].
  apply sortedBy_cons. split; [|by apply IH].
  intros b [_ Hb]%list_elem_of_filter. by apply Ha.
Qed.

(** X9: [FilterSessions]: whatever order the sessions come in, the result is
    in ascending order of display name and, within a name, of start time; it
    takes its sessions from the input and is no longer than the input. *)
Theorem FilterSessions_sorted sessions result :
  FilterSessionsReturns sessions result →
  sortedBy less result = true
  ∧ result ⊆ sessions
  ∧ (length result ≤ length sessions)%nat.
Proof.
  intros (sorted & [Hperm Hsorted] & ->)%FilterSessionsReturns_filter.
  split; [by apply sortedBy_filter|]. split.
  - intros s [_ Hs]%list_elem_of_filter. by rewrite <- Hperm.
  - rewrite <- Hperm. apply length_filter.
Qed.

Lemma filter_all {A} (P : A → Prop) `{∀ x, Decision (P x)} (l : list A) :
  Forall P l → filter P l = l.
Proof.
  induction 1 as [|a l Ha _ IH]; [done|].
  by rewrite filter_cons_True, IH.
Qed.

(** X10: [FilterSessions] run on its own result drops nothing: the sessions it
    keeps hold no strictly contained session any more. *)
Theorem FilterSessions_idempotent sessions result result' :
  FilterSessionsReturns sessions result →
  FilterSessionsReturns result result' →
  result' ≡ₚ result
  ∧ ∀ s t, s ∈ result → t ∈ result → ¬ strictlyContains t s.
Proof.
  intros (sorted & [Hperm _] & ->)%FilterSessionsReturns_filter.
  set (result := filter _ sorted).
  assert (∀ s t, s ∈ result → t ∈ result → ¬ strictlyContains t s) as Hfree.
  { intros s t [Hs _]%list_elem_of_filter [_ Ht]%list_elem_of_filter Hc.
    apply isSubSession_false in Hs. apply Hs. exists t.
    split; [by rewrite <- Hperm|done]. }
  intros (sorted' & [Hperm' _] & ->)%FilterSessionsReturns_filter.
  split; [|done].
  rewrite filter_all; [done|]. apply Forall_forall. intros s Hs.
  apply isSubSession_false. intros (t & Ht & Hc).
  rewrite Hperm' in Hs. by apply (Hfree s t).
Qed.

Lemma earliest_of_name (sessions : list Session) k :
  Exists (λ y, Name y = k) sessions →
  ∃ t, t ∈ sessions ∧ Name t = k
       ∧ ∀ u, u ∈ sessions → Name u = k →
              unixNano (StartTime t) ≤ unixNano (StartTime u).
Proof.
  induction sessions as [|a l IH]; [by intros ?%Exists_nil|].
  intros Hex.
  destruct (decide (Exists (λ y, Name y = k) l)) as [Hl|Hl].
  - destruct (IH Hl) as (t & Ht & Hnt & Hmin).
    destruct (decide (Name a = k)) as [Ha|Ha].
    + destruct (Z.le_ge_cases (unixNano (StartTime a)) (unixNano (StartTime t))).
      * exists a. split; [by left|]. split; [done|].
        intros u [->|Hu]%elem_of_cons Hnu; [lia|].
        specialize (Hmin u Hu Hnu). lia.
      * exists t. split; [by right|]. split; [done|].
        intros u [->|Hu]%elem_of_cons Hnu; [lia|by apply Hmin].
    + exists t. split; [by right|]. split; [done|].
      intros u [->|Hu]%elem_of_cons Hnu; [done|by apply Hmin].
  - apply Exists_cons in Hex as [Ha|?]; [|done].
    exists a. split; [by left|]. split; [done|].
    intros u [->|Hu]%elem_of_cons Hnu; [lia|].
    exfalso. apply Hl, Exists_exists. by exists u.
Qed.

(** X11: [FilterSessions] never empties a display name: for every session of
    the input the result keeps a session of the same name that starts no
    later, the earliest of that name among them. *)
Theorem FilterSessions_keeps_names sessions result x :
  FilterSessionsReturns sessions result → x ∈ sessions →
  ∃ t, t ∈ result ∧ Name t = Name x
       ∧ unixNano (StartTime t) ≤ unixNano (StartTime x).
Proof.
  intros (sorted & [Hperm _] & ->)%FilterSessionsReturns_filter Hx.
  destruct (earliest_of_name sessions (Name x)) as (t & Ht & Hn & Hmin).
  { apply Exists_exists. by exists x. }
  exists t. split; [|split; [done|by apply Hmin]].
  apply list_elem_of_filter. split; [|by rewrite Hperm].
  apply isSubSession_false. intros (u & Hu & Hnu & Hs & _).
  specialize (Hmin u Hu ltac:(congruence)). lia.
Qed.

(** *** More about the aggregation *)

Section AggregatorMore.

Variable date : Time.

Lemma overlapSum_cons k s sessions :
  overlapSum date k (s :: sessions)
  = (if decide (userKey s = k ∧ onDate date s)
     then windowOverlap date s else 0)
    + overlapSum date k sessions.
Proof. unfold overlapSum. simpl. case_decide; lia. Qed.

Lemma overlapSum_Permutation k sessions sessions' :
  sessions ≡ₚ sessions' → overlapSum date k sessions = overlapSum date k sessions'.
Proof.
  induction 1 as [|s l l' _ IH|s1 s2 l|l1 l2 l3 _ IH1 _ IH2].
  - done.
  - by rewrite !overlapSum_cons, IH.
  - rewrite !overlapSum_cons. lia.
  - by rewrite IH1.
Qed.

Lemma overlapSum_bounds k sessions :
  0 ≤ overlapSum date k sessions ≤ 2 * Hour * Z.of_nat (length sessions).
Proof.
  induction sessions as [|s l IH]; [done|].
  rewrite overlapSum_cons. pose proof (windowOverlap_bounds date s).
  assert (0 < Hour) by done.
  case_decide; simpl length; lia.
Qed.

Lemma overlapSum_pos k sessions s :
  s ∈ sessions → userKey s = k → onDate date s → 0 < windowOverlap date s →
  0 < overlapSum date k sessions.
Proof.
  intros Hin Hk Hon Hpos. induction sessions as [|x l IH];
    [by apply elem_of_nil in Hin|].
  rewrite overlapSum_cons. pose proof (overlapSum_bounds k l).
  apply elem_of_cons in Hin as [<-|Hin].
  - rewrite decide_True by done. lia.
  - specialize (IH Hin). pose proof (windowOverlap_bounds date x).
    case_decide; lia.
Qed.

(** X12: [CalculateTotalTimeForDate]: the total recorded under a key does not
    depend on the order of the sessions. *)
Theorem CalculateTotalTimeForDate_order_independent sessions sessions' k :
  sessions ≡ₚ sessions' →
  totalOf (CalculateTotalTimeForDate date sessions) k
  = totalOf (CalculateTotalTimeForDate date sessions') k.
Proof.
  intros Hp. rewrite !CalculateTotalTimeForDate_total.
  by rewrite (overlapSum_Permutation k _ _ Hp).
Qed.

(** What a record holds: the name and user id of a session that starts on
    the day and reaches into the window, whose concatenation is the key, and
    the start of the day. *)
Lemma CalculateTotalTimeForDate_record sessions k r :
  CalculateTotalTimeForDate date sessions !! k = Some r →
  SessionTime.Name r +:+ SessionTime.GoogleID r = k
  ∧ SessionTime.Date r = startOfDay date
  ∧ ∃ s, s ∈ sessions ∧ Name s = SessionTime.Name r
         ∧ GoogleID s = SessionTime.GoogleID r
         ∧ onDate date s ∧ 0 < windowOverlap date s.
Proof.
  revert r. induction sessions as [|s l IH] using rev_ind; intros r.
  { unfold CalculateTotalTimeForDate. simpl. by rewrite lookup_empty. }
  rewrite CalculateTotalTimeForDate_snoc, totalTimeStep_spec.
  assert (∀ r, CalculateTotalTimeForDate date l !! k = Some r →
            SessionTime.Name r +:+ SessionTime.GoogleID r = k
            ∧ SessionTime.Date r = startOfDay date
            ∧ ∃ s0, s0 ∈ l ++ [s] ∧ Name s0 = SessionTime.Name r
                    ∧ GoogleID s0 = SessionTime.GoogleID r
                    ∧ onDate date s0 ∧ 0 < windowOverlap date s0) as IH'.
  { intros r' Hr. destruct (IH _ Hr) as (? & ? & x & ? & ?).
    split; [done|]. split; [done|]. exists x.
    split; [apply elem_of_app; by left|done]. }
  destruct (decide (onDate date s ∧ 0 < windowOverlap date s)) as [Hs|Hs];
    [|by apply IH'].
  destruct (decide (userKey s = k)) as [<-|Hne];
    [|rewrite lookup_insert_ne by done; by apply IH'].
  rewrite lookup_insert_eq.
  destruct (CalculateTotalTimeForDate date l !! userKey s) as [r0|] eqn:E;
    intros [= <-]; simpl.
  - by apply IH'.
  - split; [done|]. split; [done|]. exists s.
    split; [apply elem_of_app; right; by left|tauto].
Qed.

(** X13: [CalculateTotalTimeForDate]: with at most 1,281,023 sessions no total
    overflows. Every record then holds the exact sum of what the sessions of
    its key have inside the window, a positive duration of at most two hours
    for each session of the input, dated at the start of the day. *)
Theorem CalculateTotalTimeForDate_exact sessions k r :
  Z.of_nat (length sessions) ≤ 1281023 →
  CalculateTotalTimeForDate date sessions !! k = Some r →
  SessionTime.TotalTime r = overlapSum date k sessions
  ∧ 0 < SessionTime.TotalTime r ≤ 2 * Hour * Z.of_nat (length sessions)
  ∧ SessionTime.Date r = startOfDay date.
Proof.
  intros Hlen Hr.
  destruct (CalculateTotalTimeForDate_record _ _ _ Hr)
    as (Hkey & Hdate & s & Hin & Hn & Hg & Hon & Hpos).
  pose proof (CalculateTotalTimeForDate_total date sessions k) as Htot.
  unfold totalOf in Htot. rewrite Hr in Htot. simpl in Htot.
  pose proof (overlapSum_bounds k sessions) as Hb.
  assert (0 < overlapSum date k sessions) as Hp.
  { apply (overlapSum_pos k sessions s); [done| |done..].
    unfold userKey. by rewrite Hn, Hg. }
  assert (2 * Hour * 1281023 ≤ maxDuration) as Hmax by (by vm_compute).
  assert (minDuration < 0) as Hmin by done.
  assert (0 < Hour) as HH by done.
  rewrite wrap64_small in Htot by nia.
  split; [done|]. split; [lia|done].
Qed.

End AggregatorMore.

(** *** [mapToSlice] and the handler *)

Lemma omap_lookup_entries (m : gmap string SessionTime.t)
      (l : list (string * SessionTime.t)) :
  Forall (λ kv, m !! kv.1 = Some kv.2) l →
  omap (λ k, m !! k) l.*1 = l.*2.
Proof.
  induction 1 as [|[k v] l Hkv _ IH]; [done|].
  simpl in *. rewrite Hkv. f_equal. exact IH.
Qed.

Lemma mapToSliceReturns_Permutation m slice :
  mapToSliceReturns m slice → slice ≡ₚ mapToSlice m.
Proof.
  intros (keys & Hk & ->). unfold mapToSliceIn, mapToSlice.
  rewrite <- (omap_lookup_entries m (map_to_list m)).
  - apply omap_Permutation.
    apply (rangeOrder_Permutation m); [done|apply rangeOrder_map_to_list].
  - apply Forall_forall. intros [k v] Hkv. by apply elem_of_map_to_list.
Qed.

Lemma mapToSlice_returns m : mapToSliceReturns m (mapToSlice m).
Proof.
  exists (map_to_list m).*1. split; [apply rangeOrder_map_to_list|].
  unfold mapToSliceIn, mapToSlice. symmetry. apply omap_lookup_entries.
  apply Forall_forall. intros [k v] Hkv. by apply elem_of_map_to_list.
Qed.

Lemma elem_of_mapToSlice (m : gmap string SessionTime.t) r :
  r ∈ mapToSlice m ↔ ∃ k, m !! k = Some r.
Proof.
  unfold mapToSlice. rewrite list_elem_of_fmap. split.
  - intros ([k v] & -> & Hkv). exists k. by apply elem_of_map_to_list.
  - intros (k & Hk). exists (k, r). split; [done|]. by apply elem_of_map_to_list.
Qed.

(** X14: [mapToSlice] after [CalculateTotalTimeForDate]: whatever order the
    map is iterated in, the slice holds the records of the map, one for each
    key, and no two of its records bear the same concatenation of name and
    user id. *)
Theorem mapToSlice_records date sessions slice :
  mapToSliceReturns (CalculateTotalTimeForDate date sessions) slice →
  slice ≡ₚ (map_to_list (CalculateTotalTimeForDate date sessions)).*2
  ∧ length slice = size (CalculateTotalTimeForDate date sessions)
  ∧ NoDup ((λ r, SessionTime.Name r +:+ SessionTime.GoogleID r) <$> slice).
Proof.
  intros Hs%mapToSliceReturns_Permutation. unfold mapToSlice in Hs.
  split; [done|]. split.
  - by rewrite Hs, length_fmap, length_map_to_list.
  - rewrite Hs.
    assert ((λ r, SessionTime.Name r +:+ SessionTime.GoogleID r)
              <$> (map_to_list (CalculateTotalTimeForDate date sessions)).*2
            = (map_to_list (CalculateTotalTimeForDate date sessions)).*1) as ->.
    { rewrite <- list_fmap_compose. apply list_fmap_ext.
      intros i [k r] Hkr%list_elem_of_lookup_2%elem_of_map_to_list. simpl.
      by destruct (CalculateTotalTimeForDate_record _ _ _ _ Hkr) as [-> _]. }
    apply NoDup_fst_map_to_list.
Qed.

Section HandlerFacts.

Variable Parse : string → option Time.
Variable date : Time.

(** The executable instances compose to a result of the handler. *)
Lemma handler_returns activities :
  handlerReturns Parse date activities (handler Parse date activities).
Proof.
  eexists. split; [|apply mapToSlice_returns].
  exists (SortActivities Parse activities),
         (processActivities Parse (SortActivities Parse activities)),
         (FilterSessions (processActivities Parse (SortActivities Parse activities))).
  split; [apply SortActivities_returns|].
  split; [apply processActivities_returns|].
  split; [apply FilterSessions_returns|done].
Qed.

Lemma FilterSessionsReturns_Permutation sessions sessions' result result' :
  sessions ≡ₚ sessions' →
  FilterSessionsReturns sessions result →
  FilterSessionsReturns sessions' result' →
  result ≡ₚ result'.
Proof.
  intros Hp (sorted & [Hperm _] & ->)%FilterSessionsReturns_filter
            (sorted' & [Hperm' _] & ->)%FilterSessionsReturns_filter.
  rewrite Hperm, Hperm', Hp.
  erewrite list_filter_iff; [done|].
  intros s. by rewrite (isSubSession_Permutation _ _ s Hp).
Qed.

(** X15: The handler: when no two rows share both display name and creation
    instant, the total it obtains for a key depends on nothing but the set of
    rows: not on the order in which they were fetched, nor on how the sorts
    and the map iteration happen to run. *)
Theorem handler_totals_deterministic activities activities' totalTime totalTime' k :
  NoDup (sortKey Parse <$> activities) → activities' ≡ₚ activities →
  totalTimeReturns Parse date activities totalTime →
  totalTimeReturns Parse date activities' totalTime' →
  totalOf totalTime k = totalOf totalTime' k.
Proof.
  intros Hnd Hp (sorted & sessions & filtered & Hs & Hr & Hf & ->)
                (sorted' & sessions' & filtered' & Hs' & Hr' & Hf' & ->).
  assert (sorted = sorted') as <- by (by eapply sorted_unique).
  pose proof (processActivitiesReturns_Permutation _ _ _ _ Hr Hr') as Hps.
  pose proof (FilterSessionsReturns_Permutation _ _ _ _ Hps Hf Hf') as Hpf.
  rewrite !CalculateTotalTimeForDate_total.
  by rewrite (overlapSum_Permutation date k _ _ Hpf).
Qed.

(** X16: The handler: every record it passes on bears the display name and the
    user id of a presence signal among the rows; it reports no name and no
    user id of its own making, and none that only end signals or other events
    carry. *)
Theorem handler_reports_signals activities totalTimeMap r :
  handlerReturns Parse date activities totalTimeMap → r ∈ totalTimeMap →
  ∃ a, a ∈ activities ∧ Active a = 2
       ∧ DisplayName a = SessionTime.Name r
       ∧ UserID a = SessionTime.GoogleID r.
Proof.
  intros (totalTime & (sorted & sessions & filtered & [Hperm _] & Hr & Hf & ->)
          & Hslice) Hin.
  rewrite (mapToSliceReturns_Permutation _ _ Hslice) in Hin.
  apply elem_of_mapToSlice in Hin as (k & Hk).
  destruct (CalculateTotalTimeForDate_record _ _ _ _ Hk)
    as (_ & _ & s & Hs & Hn & Hg & _).
  apply FilterSessionsReturns_filter in Hf as (sorted' & [Hperm' _] & ->).
  apply list_elem_of_filter in Hs as [_ Hs]. rewrite Hperm' in Hs.
  destruct (processActivities_openedBy Parse _ _ _ Hr Hs)
    as (a & Ha & pre & rest & o & _ & E2 & _ & Hid & Hname).
  exists a. split; [by rewrite <- Hperm|]. split; [done|].
  split; congruence.
Qed.

Lemma processActivitiesReturns_abandoned activities e result :
  e ∈ activities → Active e = 2 →
  Parse (CreateTime e) = None ∨ Parse (UpdateTime e) = None →
  processActivitiesReturns Parse activities result → result = [].
Proof.
  intros Hin E2 Hbad (keys & [_ Hkeys] & ->).
  rewrite processActivitiesIn_concat.
  assert (mapM (λ k, userResult Parse
                       (filter (λ a, DisplayName a = k) activities))
               keys = None) as ->; [|done].
  apply mapM_None_2, Exists_exists. exists (DisplayName e). split.
  { apply Hkeys, groupActivities_is_Some. by apply list_elem_of_fmap_2. }
  unfold userResult.
  rewrite (activitiesLoop_Active_malformed Parse _ e); [done| |done..].
  by apply list_elem_of_filter.
Qed.

(** X17: The handler: one presence signal with a timestamp that does not
    parse, wherever it stands among the rows, and the handler passes on no
    record at all, for any display name. *)
Theorem handler_abandoned activities e totalTimeMap :
  e ∈ activities → Active e = 2 →
  Parse (CreateTime e) = None ∨ Parse (UpdateTime e) = None →
  handlerReturns Parse date activities totalTimeMap → totalTimeMap = [].
Proof.
  intros Hin E2 Hbad
         (totalTime & (sorted & sessions & filtered & [Hperm _] & Hr & Hf & ->)
          & Hslice).
  rewrite <- Hperm in Hin.
  rewrite (processActivitiesReturns_abandoned _ _ _ Hin E2 Hbad Hr) in Hf.
  destruct Hf as (sorted' & [Hperm' _] & ->).
  apply Permutation_nil_r in Hperm' as ->. simpl in Hslice.
  apply mapToSliceReturns_Permutation in Hslice.
  by apply Permutation_nil_r in Hslice.
Qed.

End HandlerFacts.

(** *** The facts above on concrete inputs *)

Lemma rangeOrder_keys {V} (m : gmap string V) keys :
  keys ≡ₚ (map_to_list m).*1 → rangeOrder m keys.
Proof.
  intros Hp. destruct (rangeOrder_map_to_list m) as [Hnd Hk].
  split; [by rewrite Hp|]. intros k. by rewrite Hp.
Qed.

Lemma totalTime_returns Parse date activities :
  totalTimeReturns Parse date activities
    (CalculateTotalTimeForDate date
       (FilterSessions (processActivities Parse (SortActivities Parse activities)))).
Proof.
  exists (SortActivities Parse activities),
         (processActivities Parse (SortActivities Parse activities)),
         (FilterSessions (processActivities Parse (SortActivities Parse activities))).
  split; [apply SortActivities_returns|].
  split; [apply processActivities_returns|].
  split; [apply FilterSessions_returns|done].
Qed.

(** The rows of [alice] in [morning] reach the reconstruction sorted. *)
Lemma SortActivities_groups_witness :
  default [] (groupActivities sortedMorning !! "alice")
  ≡ₚ filter (λ a, DisplayName a = "alice") morning.
Proof.
  apply (SortActivities_groups ParseRFC3339 morning sortedMorning "alice").
  split.
  - apply (bool_decide_unpack _). vm_compute. reflexivity.
  - vm_compute. reflexivity.
Defined.

(** The ten-minute batch, fetched end signal first, sorts back into place. *)
Lemma SortActivities_deterministic_witness :
  tenMinutes = SortActivities ParseRFC3339 tenMinutes.
Proof.
  apply (SortActivities_deterministic ParseRFC3339 tenMinutes shuffledTenMinutes).
  - apply (bool_decide_unpack _). vm_compute. reflexivity.
  - apply (bool_decide_unpack _). vm_compute. reflexivity.
  - split.
    + apply (bool_decide_unpack _). vm_compute. reflexivity.
    + vm_compute. reflexivity.
Defined.

(** Visiting [bob] before [alice] or after gives the same two sessions. *)
Lemma processActivities_order_independent_witness :
  processActivitiesIn ParseRFC3339 ["alice"; "bob"] sortedMorning
  ≡ₚ processActivitiesIn ParseRFC3339 ["bob"; "alice"] sortedMorning.
Proof.
  apply (processActivities_order_independent ParseRFC3339 sortedMorning).
  - exists ["alice"; "bob"]. split; [|reflexivity].
    apply rangeOrder_keys, (bool_decide_unpack _). vm_compute. reflexivity.
  - exists ["bob"; "alice"]. split; [|reflexivity].
    apply rangeOrder_keys, (bool_decide_unpack _). vm_compute. reflexivity.
Defined.

(** Two presence signals, two sessions. *)
Lemma processActivities_length_witness :
  (length (processActivities ParseRFC3339 sortedMorning)
   ≤ presenceSignals sortedMorning)%nat.
Proof.
  apply (processActivities_length ParseRFC3339 sortedMorning).
  apply processActivities_returns.
Defined.

(** The ten-minute session runs from the creation time of the first signal
    to the update time of the end signal. *)
Lemma processActivities_bounds_witness :
  boundsFrom ParseRFC3339
    (filter (λ a, DisplayName a = Name tenMinuteSession) tenMinutes)
    tenMinuteSession.
Proof.
  apply (processActivities_bounds ParseRFC3339 tenMinutes [tenMinuteSession]).
  - apply (processActivitiesReturns_one_name _ _ "alice").
    + discriminate.
    + repeat constructor.
    + vm_compute. reflexivity.
  - left.
Defined.


(** The filtered sample is in order and shorter than the input. *)
Lemma FilterSessions_sorted_witness :
  sortedBy less (FilterSessions nestedInput) = true
  ∧ FilterSessions nestedInput ⊆ nestedInput
  ∧ (length (FilterSessions nestedInput) ≤ length nestedInput)%nat.
Proof.
  apply (FilterSessions_sorted nestedInput (FilterSessions nestedInput)).
  apply FilterSessions_returns.
Defined.

(** Filtering the filtered sample again keeps its three sessions. *)
Lemma FilterSessions_idempotent_witness :
  FilterSessions (FilterSessions nestedInput) ≡ₚ FilterSessions nestedInput.
Proof.
  apply (FilterSessions_idempotent nestedInput (FilterSessions nestedInput)
                                   (FilterSessions (FilterSessions nestedInput))).
  - apply FilterSessions_returns.
  - apply FilterSessions_returns.
Defined.

(** The nested session goes, a session of its display name stays. *)
Lemma FilterSessions_keeps_names_witness :
  ∃ t, t ∈ FilterSessions nestedInput ∧ Name t = Name nestedSession
       ∧ unixNano (StartTime t) ≤ unixNano (StartTime nestedSession).
Proof.
  apply (FilterSessions_keeps_names nestedInput).
  - apply FilterSessions_returns.
  - right. left.
Defined.

(** Two sessions of one key, in either order. *)
Lemma CalculateTotalTimeForDate_order_independent_witness :
  totalOf (CalculateTotalTimeForDate august6 [outerSession; clipSession]) "aliceu1"
  = totalOf (CalculateTotalTimeForDate august6 [clipSession; outerSession]) "aliceu1".
Proof.
  apply (CalculateTotalTimeForDate_order_independent august6).
  apply (bool_decide_unpack _). vm_compute. reflexivity.
Defined.

(** Two sessions that fill the window are recorded as four hours. *)
Lemma CalculateTotalTimeForDate_exact_witness :
  4 * Hour = overlapSum august6 "aliceu1" [outerSession; clipSession]
  ∧ 0 < 4 * Hour ≤ 2 * Hour * Z.of_nat (length [outerSession; clipSession])
  ∧ august6 = startOfDay august6.
Proof.
  apply (CalculateTotalTimeForDate_exact august6 [outerSession; clipSession]
           "aliceu1" (SessionTime.mk "alice" "u1" (4 * Hour) august6)).
  - vm_compute. discriminate.
  - vm_compute. reflexivity.
Defined.

(** The two records of the morning, each once. *)
Lemma mapToSlice_records_witness :
  mapToSlice (CalculateTotalTimeForDate august6 [aliceMorning; bobMorning])
  ≡ₚ (map_to_list
        (CalculateTotalTimeForDate august6 [aliceMorning; bobMorning])).*2
  ∧ length (mapToSlice
              (CalculateTotalTimeForDate august6 [aliceMorning; bobMorning]))
    = size (CalculateTotalTimeForDate august6 [aliceMorning; bobMorning])
  ∧ NoDup ((λ r, SessionTime.Name r +:+ SessionTime.GoogleID r)
             <$> mapToSlice
                   (CalculateTotalTimeForDate august6 [aliceMorning; bobMorning])).
Proof.
  apply (mapToSlice_records august6 [aliceMorning; bobMorning]).
  apply mapToSlice_returns.
Defined.

(** The rows of the morning fetched in the reverse order give [bob] the same
    total. *)
Lemma handler_totals_deterministic_witness :
  totalOf (CalculateTotalTimeForDate august6
             (FilterSessions
                (processActivities ParseRFC3339
                   (SortActivities ParseRFC3339 morning)))) "bobu2"
  = totalOf (CalculateTotalTimeForDate august6
               (FilterSessions
                  (processActivities ParseRFC3339
                     (SortActivities ParseRFC3339 (rev morning))))) "bobu2".
Proof.
  apply (handler_totals_deterministic ParseRFC3339 august6 morning (rev morning)).
  - apply (bool_decide_unpack _). vm_compute. reflexivity.
  - apply (bool_decide_unpack _). vm_compute. reflexivity.
  - apply totalTime_returns.
  - apply totalTime_returns.
Defined.

(** The record of [bob] comes from his presence signal. *)
Lemma handler_reports_signals_witness :
  ∃ a, a ∈ morning ∧ Active a = 2
       ∧ DisplayName a = "bob" ∧ UserID a = "u2".
Proof.
  apply (handler_reports_signals ParseRFC3339 august6 morning
           (handler ParseRFC3339 august6 morning) bobRecord).
  - apply handler_returns.
  - apply (bool_decide_unpack _). vm_compute. reflexivity.
Defined.

(** [brokenBatch] holds a complete session of [bob]; nothing is reported. *)
Lemma handler_abandoned_witness : handler ParseRFC3339 august6 brokenBatch = [].
Proof.
  apply (handler_abandoned ParseRFC3339 august6 brokenBatch
           (event "alice" "u1" "2024-08-06T03:00:00Z" "" 2)).
  - right. right. left.
  - reflexivity.
  - right. reflexivity.
  - apply handler_returns.
Defined.

(** *** More worked examples *)

Example calendar_fields :
  Month august6 = 8 ∧ Day august6 = 6
  ∧ Month (DateUTC 2024 2 29) = 2 ∧ Day (DateUTC 2024 2 29) = 29
  ∧ Year zeroTime = 1 ∧ Month zeroTime = 1 ∧ Day zeroTime = 1.
Proof. repeat split; reflexivity. Qed.

Example parseCustomDateFormat_samples :
  parseCustomDateFormat "2024/08/06" = Some august6
  ∧ parseCustomDateFormat "2024-08-06" = None
  ∧ parseCustomDateFormat "2023/02/29" = None
  ∧ parseCustomDateFormat "2024/8/6" = None
  ∧ parseCustomDateFormat "2024/08/06 " = None.
Proof. repeat split; reflexivity. Qed.

Example FetchActivities_sample :
  FetchActivities.startOfDay (timeOf "2024-08-06T13:47:00Z") = august6
  ∧ FetchActivities.endOfDay (timeOf "2024-08-06T13:47:00Z")
    = timeOf "2024-08-06T23:59:59Z".
Proof. split; reflexivity. Qed.

Example morning_pipeline :
  SortActivities ParseRFC3339 morning = sortedMorning
  ∧ processActivities ParseRFC3339 sortedMorning = [aliceMorning; bobMorning]
  ∧ handler ParseRFC3339 august6 morning = [aliceRecord; bobRecord].
Proof. repeat split; by vm_compute. Qed.

(** Unsorted, the end signal of [bob] comes before his presence signal and
    his session stops at 04:30. *)
Example morning_unsorted :
  processActivities ParseRFC3339 morning
  = [aliceMorning;
     mkSession "bob" "u2" (timeOf "2024-08-06T04:00:00Z")
               (timeOf "2024-08-06T04:30:00Z")].
Proof. by vm_compute. Qed.
